(** * Vector-based matrix evaluation

    A shallow embedding of [light_mat/matrix/matrix_vector_eval.h]
    (namespace [lmat]): the policy tags, the compile-time cost model and
    evaluator map ([generic_vector_eval], [vector_eval],
    [vector_eval_default_policy]), the six evaluator classes, the two
    loop engines ([linear_eval_impl], [percol_eval_impl]) and the entry
    point [evaluate].

    Template metaprograms are functions on a description of the
    expression type; a member that a specialization does not declare, or
    a specialization that is declared but never defined, is [None]: code
    that names it does not build.  Run-time code runs on a machine with
    one flat memory, so that a source matrix, an expression and the
    destination may share cells exactly as raw pointers allow.

    The last part embeds [light_mat/random/internal/uniform_real_internal.h]
    (namespace [lmat::random::internal]): the routines that turn random
    bits into a real of [1, 2), on bit patterns, with the IEEE 754
    decoding of a pattern as a rational. *)

From Stdlib Require Import ZArith List Bool Lia QArith.
Import ListNotations.
Local Open Scope Z_scope.

Module lmat.

(** ** Policy types *)

Inductive Means := by_scalars | by_simd.
Inductive Org := as_linear_vec | per_column.

Record vector_eval_policy := mk_policy { policy_org : Org; policy_means : Means }.

(** ** What the metaprograms read from an expression type

    [is_const_matrix] says that the type is an instance of
    [const_matrix<T, CTRows, CTCols>], the pattern of the two full
    specializations of [vector_eval]; the other fields are the traits
    [is_dense_mat<Expr>::value], [ct_has_continuous_layout<Expr>::value],
    [ct_rows<Expr>::value] and [ct_cols<Expr>::value]. *)

Record ExprType := mk_expr_type {
  is_const_matrix : bool;
  is_dense_mat : bool;
  ct_has_continuous_layout : bool;
  ct_rows : Z;
  ct_cols : Z
}.

(** The six evaluator classes, as the targets of the [evaluator_type]
    typedefs. *)

Inductive evaluator_class :=
| continuous_linear_evaluator
| dense_percol_evaluator
| const_linear_evaluator
| const_percol_evaluator
| cached_linear_evaluator
| cached_percol_evaluator.

(** ** Evaluator map and cost model *)

Definition VEC_EVAL_CACHE_COST : Z := 1000.
Definition SHORTVEC_LENGTH_THRESHOLD : Z := 4.
Definition SHORTVEC_PERCOL_COST : Z := 200.

(** The members of one specialization.  [None] is a member the
    specialization does not declare. *)

Record eval_members := mk_members {
  evaluator_type : evaluator_class;
  cost : option Z;
  normal_cost : option Z;
  shortv_cost : option Z
}.

Definition if_c {A : Type} (c : bool) (a b : A) : A := if c then a else b.

(** [generic_vector_eval<Expr, as_linear_vec, by_scalars>] *)

Definition linear_can_direct (E : ExprType) : bool :=
  is_dense_mat E && ct_has_continuous_layout E.

Definition generic_linear_evaluator_type (E : ExprType) : evaluator_class :=
  if_c (linear_can_direct E) continuous_linear_evaluator cached_linear_evaluator.

Definition generic_linear_cost (E : ExprType) : Z :=
  if linear_can_direct E then 0 else VEC_EVAL_CACHE_COST.

(** [generic_vector_eval<Expr, per_column, by_scalars>] *)

Definition percol_can_direct (E : ExprType) : bool := is_dense_mat E.

Definition has_short_col (E : ExprType) : bool :=
  ct_rows E <? SHORTVEC_LENGTH_THRESHOLD.

Definition generic_percol_evaluator_type (E : ExprType) : evaluator_class :=
  if_c (percol_can_direct E) dense_percol_evaluator cached_percol_evaluator.

Definition generic_percol_normal_cost (E : ExprType) : Z :=
  if percol_can_direct E then 0 else VEC_EVAL_CACHE_COST.

Definition generic_percol_shortv_cost (E : ExprType) : Z :=
  SHORTVEC_PERCOL_COST + generic_percol_normal_cost E.

Definition generic_percol_cost (E : ExprType) : Z :=
  if has_short_col E then generic_percol_shortv_cost E
  else generic_percol_normal_cost E.

(** The primary template [generic_vector_eval] is only declared; its two
    partial specializations are for [by_scalars]. *)

Definition generic_vector_eval (E : ExprType) (org : Org) (means : Means)
  : option eval_members :=
  match means, org with
  | by_simd, _ => None
  | by_scalars, as_linear_vec =>
      Some {| evaluator_type := generic_linear_evaluator_type E;
              cost := Some (generic_linear_cost E);
              normal_cost := None;
              shortv_cost := None |}
  | by_scalars, per_column =>
      Some {| evaluator_type := generic_percol_evaluator_type E;
              cost := Some (generic_percol_cost E);
              normal_cost := Some (generic_percol_normal_cost E);
              shortv_cost := Some (generic_percol_shortv_cost E) |}
  end.

Definition member (f : eval_members -> option Z) (s : option eval_members)
  : option Z :=
  match s with
  | Some m => f m
  | None => None
  end.

(** [vector_eval<Expr, Org, Means>]: the two full specializations for
    [const_matrix] with [by_scalars] are the most specialized and win;
    every other type goes through the partial specializations, which
    forward to [generic_vector_eval].  The one for [as_linear_vec]
    forwards [evaluator_type] and [cost]; the one for [per_column]
    forwards [evaluator_type], [normal_cost] and [shortv_cost], and
    declares no [cost]. *)

Definition vector_eval (E : ExprType) (org : Org) (means : Means)
  : option eval_members :=
  match is_const_matrix E, means, org with
  | true, by_scalars, as_linear_vec =>
      Some {| evaluator_type := const_linear_evaluator;
              cost := Some 0;
              normal_cost := None;
              shortv_cost := None |}
  | true, by_scalars, per_column =>
      Some {| evaluator_type := const_percol_evaluator;
              cost := Some 0;
              normal_cost := Some 0;
              shortv_cost := Some 0 |}
  | _, _, as_linear_vec =>
      match generic_vector_eval E as_linear_vec means with
      | Some g => Some {| evaluator_type := evaluator_type g;
                          cost := cost g;
                          normal_cost := None;
                          shortv_cost := None |}
      | None => None
      end
  | _, _, per_column =>
      match generic_vector_eval E per_column means with
      | Some g => Some {| evaluator_type := evaluator_type g;
                          cost := None;
                          normal_cost := normal_cost g;
                          shortv_cost := shortv_cost g |}
      | None => None
      end
  end.

(** [vector_eval_default_policy<Expr>]; [None] when one of the two
    [::cost] members it reads does not exist. *)

Record default_policy := mk_default_policy {
  means : Means;
  linear_cost : Z;
  percol_cost : Z;
  choose_linear : bool;
  org : Org
}.

Definition policy_type (p : default_policy) : vector_eval_policy :=
  mk_policy (org p) (means p).

Definition vector_eval_default_policy (E : ExprType) : option default_policy :=
  let means := by_scalars in
  match member cost (vector_eval E as_linear_vec means),
        member cost (vector_eval E per_column means) with
  | Some linear_cost, Some percol_cost =>
      let choose_linear := linear_cost <=? percol_cost in
      Some {| means := means;
              linear_cost := linear_cost;
              percol_cost := percol_cost;
              choose_linear := choose_linear;
              org := if_c choose_linear as_linear_vec per_column |}
  | _, _ => None
  end.

(** ** Memory, matrices and expressions *)

(** [index_t] is declared outside these sources; indices and sizes are
    integers here, and a pointer is the address of a cell. *)

Definition index_t := Z.
Definition addr := Z.

(** What the engine does that an observer can tell apart: a source
    expression materialized into a temporary, a cell of the destination
    written, the evaluator told to go to the next column. *)

Inductive event :=
| EvMaterialize
| EvWrite (a : addr)
| EvNextColumn.

(** The interface of [IDenseMatrix] used here: [ptr_data()], [nrows()],
    [ncolumns()] and [lead_dim()]. *)

Record dense_mat := mk_dense {
  ptr_data : addr;
  nrows : index_t;
  ncolumns : index_t;
  lead_dim : index_t
}.

(** Modelled from the spec: [nelems()] of matrix_classes.h, which is not
    in the sources, is the destination's element count. *)

Definition nelems (X : dense_mat) : index_t := nrows X * ncolumns X.

(** The values [binary_ct_size<Expr, Dst>::value],
    [binary_ct_rows<Expr, Dst>::value] and
    [binary_ct_cols<Expr, Dst>::value] of matrix_properties.h, which is
    not in the sources; they are inputs here. *)

Record binary_ct := mk_binary_ct {
  binary_ct_size : Z;
  binary_ct_rows : Z;
  binary_ct_cols : Z
}.

(** [for (index_t i = 0; i < len; ++i) body]: the body runs for
    [i = 0, 1, ..., len - 1], and not at all when [len <= 0]. *)

Fixpoint for_loop {S : Type} (n : nat) (i : index_t)
  (body : index_t -> S -> S) (s : S) : S :=
  match n with
  | O => s
  | Datatypes.S k => for_loop k (i + 1) body (body i s)
  end.

Definition for_range {S : Type} (len : index_t)
  (body : index_t -> S -> S) (s : S) : S :=
  for_loop (Z.to_nat len) 0 body s.

Definition zrange (len : index_t) : list index_t :=
  map Z.of_nat (seq 0 (Z.to_nat len)).

(** How many times a log records a materialization. *)

Definition is_materialize (e : event) : bool :=
  match e with
  | EvMaterialize => true
  | _ => false
  end.

Definition materializations (l : list event) : nat :=
  length (filter is_materialize l).

Section Machine.

Context {T : Type}.

(** [DynamicDim] (matrix_properties.h) and the build flag
    [LMAT_USE_STATIC_ASSERT] are not fixed by the sources. *)

Variable DynamicDim : Z.
Variable LMAT_USE_STATIC_ASSERT : bool.

Definition heap := addr -> T.

Definition load (h : heap) (p : addr) : T := h p.

Definition store (h : heap) (p : addr) (v : T) : heap :=
  fun q => if q =? p then v else h q.

Record machine := mk_machine { mem : heap; log : list event }.

Definition emit (e : event) (m : machine) : machine :=
  {| mem := mem m; log := log m ++ [e] |}.

(** [pd[i] = v] *)

Definition write (p : addr) (v : T) (m : machine) : machine :=
  {| mem := store (mem m) p v; log := log m ++ [EvWrite p] |}.

(** Element [(i, j)] of a dense matrix: column-major, columns
    [lead_dim] cells apart, as both loop engines address the
    destination. *)

Definition dense_elem (X : dense_mat) (h : heap) (i j : index_t) : T :=
  load h (ptr_data X + i + j * lead_dim X).

(** The flattened (column after column) sequence of a dense matrix. *)

Definition flatten (X : dense_mat) (h : heap) (k : index_t) : T :=
  dense_elem X h (k mod nrows X) (k / nrows X).

(** Modelled from the spec: the owning [dense_matrix<T>] of
    matrix_classes.h, which is not in the sources.  Its storage is its
    own ([dm_data], addressed from 0), its columns are [dm_nrows] cells
    apart. *)

Record dense_matrix := mk_dense_matrix {
  dm_nrows : index_t;
  dm_ncolumns : index_t;
  dm_data : index_t -> T
}.

Definition dm_lead_dim (C : dense_matrix) : index_t := dm_nrows C.
Definition dm_ptr_data (C : dense_matrix) : addr := 0.

(** Modelled from the spec: the objects behind [IMatrixXpr].  A dense
    matrix is a view of the memory; a [const_matrix] carries its value;
    any other expression gives a way to read the logical (row, col)
    element, which may read the memory its operands live in. *)

Inductive Xpr :=
| XDense (X : dense_mat)
| XConst (v : T) (m n : index_t)
| XLazy (f : heap -> index_t -> index_t -> T) (m n : index_t).

Definition xpr_nrows (X : Xpr) : index_t :=
  match X with
  | XDense D => nrows D
  | XConst _ m _ => m
  | XLazy _ m _ => m
  end.

Definition xpr_ncolumns (X : Xpr) : index_t :=
  match X with
  | XDense D => ncolumns D
  | XConst _ _ n => n
  | XLazy _ _ n => n
  end.

Definition xpr_elem (X : Xpr) (h : heap) (i j : index_t) : T :=
  match X with
  | XDense D => dense_elem D h i j
  | XConst v _ _ => v
  | XLazy f _ _ => f h i j
  end.

(** Modelled from the spec: the constructor of [dense_matrix<T>] from an
    expression (matrix_classes.h) fully materializes the expression, as
    it is in the memory at that moment, into the matrix's own storage. *)

Definition materialize (X : Xpr) (h : heap) : dense_matrix :=
  {| dm_nrows := xpr_nrows X;
     dm_ncolumns := xpr_ncolumns X;
     dm_data := fun k => xpr_elem X h (k mod xpr_nrows X) (k / xpr_nrows X) |}.

(** ** Vector evaluators *)

(** The two interfaces.  [get_value] is [const]; what it returns may
    depend on the memory the evaluator points into.  The [get_value] of
    the per-column interface is [percol_get_value] here. *)

Class ILinearVectorEvaluator (Eva : Type) := {
  get_value : Eva -> heap -> index_t -> T
}.

Class IPerColVectorEvaluator (Eva : Type) := {
  percol_get_value : Eva -> heap -> index_t -> T;
  next_column : Eva -> Eva
}.

Definition static_assert (c : bool) : bool :=
  negb LMAT_USE_STATIC_ASSERT || c.

(** [continuous_linear_evaluator<T>] *)

Record continuous_linear := mk_continuous_linear { cl_m_data : addr }.

Definition new_continuous_linear (E : ExprType) (X : Xpr)
  : option continuous_linear :=
  match X with
  | XDense D =>
      if static_assert (ct_has_continuous_layout E)
      then Some {| cl_m_data := ptr_data D |}
      else None
  | _ => None
  end.

#[export] Instance continuous_linear_ILinear
  : ILinearVectorEvaluator continuous_linear :=
  {| get_value := fun e h i => load h (cl_m_data e + i) |}.

(** [dense_percol_evaluator<T>] *)

Record dense_percol := mk_dense_percol {
  dp_m_ldim : index_t;
  dp_m_data : addr
}.

Definition new_dense_percol (X : Xpr) : option dense_percol :=
  match X with
  | XDense D => Some {| dp_m_ldim := lead_dim D; dp_m_data := ptr_data D |}
  | _ => None
  end.

#[export] Instance dense_percol_IPerCol
  : IPerColVectorEvaluator dense_percol :=
  {| percol_get_value := fun e h i => load h (dp_m_data e + i);
     next_column := fun e =>
       {| dp_m_ldim := dp_m_ldim e; dp_m_data := dp_m_data e + dp_m_ldim e |} |}.

(** [const_linear_evaluator<T>] and [const_percol_evaluator<T>] *)

Record const_linear := mk_const_linear { kl_m_val : T }.

Definition new_const_linear (X : Xpr) : option const_linear :=
  match X with
  | XConst v _ _ => Some {| kl_m_val := v |}
  | _ => None
  end.

#[export] Instance const_linear_ILinear : ILinearVectorEvaluator const_linear :=
  {| get_value := fun e _ _ => kl_m_val e |}.

Record const_percol := mk_const_percol { kp_m_val : T }.

Definition new_const_percol (X : Xpr) : option const_percol :=
  match X with
  | XConst v _ _ => Some {| kp_m_val := v |}
  | _ => None
  end.

#[export] Instance const_percol_IPerCol : IPerColVectorEvaluator const_percol :=
  {| percol_get_value := fun e _ _ => kp_m_val e;
     next_column := fun e => e |}.

(** [cached_linear_evaluator<T>]: [m_cache(X), m_data(m_cache.ptr_data())] *)

Record cached_linear := mk_cached_linear {
  xl_m_cache : dense_matrix;
  xl_m_data : addr
}.

Definition new_cached_linear (X : Xpr) (m : machine) : cached_linear * machine :=
  let m_cache := materialize X (mem m) in
  ({| xl_m_cache := m_cache; xl_m_data := dm_ptr_data m_cache |},
   emit EvMaterialize m).

#[export] Instance cached_linear_ILinear : ILinearVectorEvaluator cached_linear :=
  {| get_value := fun e _ i => dm_data (xl_m_cache e) (xl_m_data e + i) |}.

(** [cached_percol_evaluator<T>]:
    [m_cache(X), m_ldim(m_cache.lead_dim()), m_data(m_cache.ptr_data())] *)

Record cached_percol := mk_cached_percol {
  xp_m_cache : dense_matrix;
  xp_m_ldim : index_t;
  xp_m_data : addr
}.

Definition new_cached_percol (X : Xpr) (m : machine) : cached_percol * machine :=
  let m_cache := materialize X (mem m) in
  ({| xp_m_cache := m_cache;
      xp_m_ldim := dm_lead_dim m_cache;
      xp_m_data := dm_ptr_data m_cache |},
   emit EvMaterialize m).

#[export] Instance cached_percol_IPerCol : IPerColVectorEvaluator cached_percol :=
  {| percol_get_value := fun e _ i => dm_data (xp_m_cache e) (xp_m_data e + i);
     next_column := fun e =>
       {| xp_m_cache := xp_m_cache e;
          xp_m_ldim := xp_m_ldim e;
          xp_m_data := xp_m_data e + xp_m_ldim e |} |}.

(** ** Evaluation context: the loop engines *)

(** The loop of both specializations of [linear_eval_impl]:
    [for (i = 0; i < len; ++i) pd[i] = evaluator.get_value(i);] *)

Definition linear_loop {Eva : Type} `{ILinearVectorEvaluator Eva}
  (len : index_t) (evaluator : Eva) (pd : addr) (m : machine) : machine :=
  for_range len
    (fun i m => write (pd + i) (get_value evaluator (mem m) i) m) m.

(** [linear_eval_impl<T, CTSize, Means>::evaluate]: only [by_scalars] is
    defined; the specialization for [DynamicDim] reads the length from
    the destination, the other one takes [CTSize] and asserts that it is
    positive. *)

Definition linear_eval_impl {Eva : Type} `{ILinearVectorEvaluator Eva}
  (CTSize : Z) (mn : Means) (evaluator : Eva) (dst : dense_mat) (m : machine)
  : option machine :=
  match mn with
  | by_simd => None
  | by_scalars =>
      if CTSize =? DynamicDim then
        let pd := ptr_data dst in
        let len := nelems dst in
        Some (linear_loop len evaluator pd m)
      else if static_assert (0 <? CTSize) then
        let pd := ptr_data dst in
        Some (linear_loop CTSize evaluator pd m)
      else None
  end.

(** The state of the outer loop of [percol_eval_impl]: the column
    pointer [pd], the evaluator (taken by reference and advanced) and
    the machine. *)

Record percol_state (Eva : Type) := mk_percol_state {
  ps_pd : addr;
  ps_evaluator : Eva;
  ps_machine : machine
}.

Arguments mk_percol_state {Eva}.
Arguments ps_pd {Eva}.
Arguments ps_evaluator {Eva}.
Arguments ps_machine {Eva}.

(** The inner loop: [for (i = 0; i < rows; ++i) pd[i] = evaluator.get_value(i);] *)

Definition percol_column {Eva : Type} `{IPerColVectorEvaluator Eva}
  (rows : index_t) (pd : addr) (evaluator : Eva) (m : machine) : machine :=
  for_range rows
    (fun i m => write (pd + i) (percol_get_value evaluator (mem m) i) m) m.

(** One turn of the outer loop: the inner loop, then the increment
    [++j, pd += ldim, evaluator.next_column()]. *)

Definition percol_step {Eva : Type} `{IPerColVectorEvaluator Eva}
  (rows ldim : index_t) (j : index_t) (s : percol_state Eva) : percol_state Eva :=
  let m1 := percol_column rows (ps_pd s) (ps_evaluator s) (ps_machine s) in
  {| ps_pd := ps_pd s + ldim;
     ps_evaluator := next_column (ps_evaluator s);
     ps_machine := emit EvNextColumn m1 |}.

Definition percol_loop {Eva : Type} `{IPerColVectorEvaluator Eva}
  (rows : index_t) (evaluator : Eva) (dst : dense_mat) (m : machine)
  : percol_state Eva :=
  let ncols := ncolumns dst in
  let ldim := lead_dim dst in
  let pd := ptr_data dst in
  for_range ncols (percol_step rows ldim)
    {| ps_pd := pd; ps_evaluator := evaluator; ps_machine := m |}.

(** [percol_eval_impl<T, CTRows, CTCols, Means>::evaluate]: the column
    count is always read from the destination; the row count is
    [dst.nrows()] in the specialization for [DynamicDim] and [CTRows],
    asserted positive, in the other one. *)

Definition percol_eval_impl {Eva : Type} `{IPerColVectorEvaluator Eva}
  (CTRows CTCols : Z) (mn : Means) (evaluator : Eva) (dst : dense_mat)
  (m : machine) : option machine :=
  match mn with
  | by_simd => None
  | by_scalars =>
      if CTRows =? DynamicDim then
        let nrows := nrows dst in
        Some (ps_machine (percol_loop nrows evaluator dst m))
      else if static_assert (0 <? CTRows) then
        Some (ps_machine (percol_loop CTRows evaluator dst m))
      else None
  end.

(** ** Evaluation functions *)

(** [evaluate(src, dst, vector_eval_policy<Org, Means>)]: the loop
    engine comes from [vector_eval_impl_map], the evaluator class from
    [vector_eval]; the evaluator is constructed from the source and the
    engine runs it.  [None] when one of the templates involved has no
    definition, or a constructor or an engine does not accept its
    argument. *)

Definition evaluate (E : ExprType) (ct : binary_ct) (src : Xpr)
  (dst : dense_mat) (p : vector_eval_policy) (m : machine) : option machine :=
  match vector_eval E (policy_org p) (policy_means p) with
  | None => None
  | Some ve =>
      match policy_org p, evaluator_type ve with
      | as_linear_vec, continuous_linear_evaluator =>
          match new_continuous_linear E src with
          | Some evaluator =>
              linear_eval_impl (binary_ct_size ct) (policy_means p) evaluator dst m
          | None => None
          end
      | as_linear_vec, const_linear_evaluator =>
          match new_const_linear src with
          | Some evaluator =>
              linear_eval_impl (binary_ct_size ct) (policy_means p) evaluator dst m
          | None => None
          end
      | as_linear_vec, cached_linear_evaluator =>
          let (evaluator, m1) := new_cached_linear src m in
          linear_eval_impl (binary_ct_size ct) (policy_means p) evaluator dst m1
      | per_column, dense_percol_evaluator =>
          match new_dense_percol src with
          | Some evaluator =>
              percol_eval_impl (binary_ct_rows ct) (binary_ct_cols ct)
                (policy_means p) evaluator dst m
          | None => None
          end
      | per_column, const_percol_evaluator =>
          match new_const_percol src with
          | Some evaluator =>
              percol_eval_impl (binary_ct_rows ct) (binary_ct_cols ct)
                (policy_means p) evaluator dst m
          | None => None
          end
      | per_column, cached_percol_evaluator =>
          let (evaluator, m1) := new_cached_percol src m in
          percol_eval_impl (binary_ct_rows ct) (binary_ct_cols ct)
            (policy_means p) evaluator dst m1
      | _, _ => None
      end
  end.

Definition linear_by_scalars_evaluate (E : ExprType) (ct : binary_ct)
  (expr : Xpr) (dst : dense_mat) (m : machine) : option machine :=
  evaluate E ct expr dst (mk_policy as_linear_vec by_scalars) m.

Definition percol_by_scalars_evaluate (E : ExprType) (ct : binary_ct)
  (expr : Xpr) (dst : dense_mat) (m : machine) : option machine :=
  evaluate E ct expr dst (mk_policy per_column by_scalars) m.

(** ** Vocabulary of the statements *)

(** The loop shared by [linear_loop] and [percol_column], stopped after
    its first [n] turns: [g] is the evaluator's [get_value]. *)

Definition fill_prefix (g : heap -> index_t -> T) (pd : addr) (n : nat)
  (m : machine) : machine :=
  for_loop n 0 (fun i m => write (pd + i) (g (mem m) i) m) m.

(** The linear engine stopped just before it handles index [i]. *)

Definition linear_before {Eva : Type} `{ILinearVectorEvaluator Eva}
  (evaluator : Eva) (dst : dense_mat) (i : index_t) (m : machine) : machine :=
  fill_prefix (get_value evaluator) (ptr_data dst) (Z.to_nat i) m.

(** The per-column engine after its first [n] columns, and stopped just
    before it handles row [i] of column [j]. *)

Definition percol_prefix {Eva : Type} `{IPerColVectorEvaluator Eva}
  (rows : index_t) (evaluator : Eva) (dst : dense_mat) (n : nat) (m : machine)
  : percol_state Eva :=
  for_loop n 0 (percol_step rows (lead_dim dst))
    {| ps_pd := ptr_data dst; ps_evaluator := evaluator; ps_machine := m |}.

Definition percol_before {Eva : Type} `{IPerColVectorEvaluator Eva}
  (rows : index_t) (evaluator : Eva) (dst : dense_mat) (i j : index_t)
  (m : machine) : machine :=
  let s := percol_prefix rows evaluator dst (Z.to_nat j) m in
  fill_prefix (percol_get_value (ps_evaluator s)) (ps_pd s) (Z.to_nat i)
    (ps_machine s).

(** The length the linear engine traverses and the number of rows the
    per-column engine visits in each column. *)

Definition traversal_length (CTSize : Z) (dst : dense_mat) : index_t :=
  if CTSize =? DynamicDim then nelems dst else CTSize.

Definition column_length (CTRows : Z) (dst : dense_mat) : index_t :=
  if CTRows =? DynamicDim then nrows dst else CTRows.

(** A compile-time size the engines build for: the dynamic marker, or a
    size that passes the engine's static assertion. *)

Definition static_size_ok (CT : Z) : Prop :=
  CT = DynamicDim \/ static_assert (0 <? CT) = true.

(** What the engines log. *)

Definition linear_trace (pd : addr) (len : index_t) : list event :=
  map (fun i => EvWrite (pd + i)) (zrange len).

Definition percol_trace (pd : addr) (ldim rows cols : index_t) : list event :=
  concat (map (fun j => linear_trace (pd + j * ldim) rows ++ [EvNextColumn])
              (zrange cols)).

(** Sets of cells. *)

Definition in_range (pd : addr) (len : index_t) (a : addr) : Prop :=
  pd <= a < pd + len.

Definition in_columns (pd : addr) (ldim rows cols : index_t) (a : addr) : Prop :=
  exists i j, 0 <= i < rows /\ 0 <= j < cols /\ a = pd + i + j * ldim.

(** The cells of the destination a call of [evaluate] may write. *)

Definition footprint (ct : binary_ct) (dst : dense_mat) (o : Org)
  : addr -> Prop :=
  match o with
  | as_linear_vec =>
      in_range (ptr_data dst) (traversal_length (binary_ct_size ct) dst)
  | per_column =>
      in_columns (ptr_data dst) (lead_dim dst)
        (column_length (binary_ct_rows ct) dst) (ncolumns dst)
  end.

Definition agree_outside (F : addr -> Prop) (h h' : heap) : Prop :=
  forall a, ~ F a -> h a = h' a.

(** The elements of the expression do not depend on the cells in [F]. *)

Definition expr_independent (src : Xpr) (F : addr -> Prop) : Prop :=
  forall h h', agree_outside F h h' ->
  forall i j, 0 <= i < xpr_nrows src -> 0 <= j < xpr_ncolumns src ->
    xpr_elem src h i j = xpr_elem src h' i j.

(** Modelled from the spec: an object of the expression type.  A
    [const_matrix] type has [XConst] objects, a dense type has dense
    objects, any other type has computed ones; a dense type with
    continuous layout has no stride between its columns. *)

Definition has_type (E : ExprType) (src : Xpr) : Prop :=
  match src with
  | XDense D =>
      is_const_matrix E = false /\ is_dense_mat E = true /\
      (ct_has_continuous_layout E = true ->
       lead_dim D = nrows D \/ ncolumns D = 1)
  | XConst _ _ _ => is_const_matrix E = true
  | XLazy _ _ _ => is_const_matrix E = false /\ is_dense_mat E = false
  end.

(** A dense matrix has a row count that is not negative and columns
    that do not run into each other. *)

Definition dense_wf (dst : dense_mat) : Prop :=
  0 <= nrows dst <= lead_dim dst.

(** The destination has the expression's shape, and the compile-time
    sizes common to both are the dynamic marker or the run-time
    sizes. *)

Definition shapes_match (ct : binary_ct) (src : Xpr) (dst : dense_mat) : Prop :=
  xpr_nrows src = nrows dst /\ xpr_ncolumns src = ncolumns dst /\
  (binary_ct_size ct = DynamicDim \/ binary_ct_size ct = nelems dst) /\
  (binary_ct_rows ct = DynamicDim \/ binary_ct_rows ct = nrows dst).

(** Linear organization is valid for a destination without stride. *)

Definition valid_org (o : Org) (dst : dense_mat) : Prop :=
  match o with
  | as_linear_vec => lead_dim dst = nrows dst \/ ncolumns dst = 1
  | per_column => True
  end.

(** The compile-time size the engine of an organization is specialized
    on, and what that engine logs. *)

Definition engine_size (ct : binary_ct) (o : Org) : Z :=
  match o with
  | as_linear_vec => binary_ct_size ct
  | per_column => binary_ct_rows ct
  end.

Definition engine_trace (ct : binary_ct) (dst : dense_mat) (o : Org)
  : list event :=
  match o with
  | as_linear_vec =>
      linear_trace (ptr_data dst) (traversal_length (binary_ct_size ct) dst)
  | per_column =>
      percol_trace (ptr_data dst) (lead_dim dst)
        (column_length (binary_ct_rows ct) dst) (ncolumns dst)
  end.

End Machine.

Arguments mk_percol_state {T Eva}.
Arguments ps_pd {T Eva}.
Arguments ps_evaluator {T Eva}.
Arguments ps_machine {T Eva}.

(** ** Concrete inputs *)

(** Expression types: a dense matrix with continuous layout (such as an
    owning matrix or a column), a dense view with a stride, a computed
    expression and a [const_matrix], with the given compile-time
    extents. *)

Definition dense_contiguous_type (r c : Z) : ExprType := mk_expr_type false true true r c.
Definition dense_strided_type (r c : Z) : ExprType := mk_expr_type false true false r c.
Definition computed_type (r c : Z) : ExprType := mk_expr_type false false false r c.
Definition const_matrix_type (r c : Z) : ExprType := mk_expr_type true false false r c.

(** A dense type whose extents are both dynamic, for a given value of
    the dynamic marker. *)

Definition dynamic_dense_type (DynamicDim : Z) : ExprType :=
  dense_contiguous_type DynamicDim DynamicDim.

(** Run-time inputs over [Z]: a memory whose cell [a] holds [a + 1]
    and a machine that starts on it with an empty log; the marker 0 for
    dynamic extents, static assertions enabled. *)

Definition ramp : @heap Z := fun a => a + 1.
Definition start : @machine Z := {| mem := ramp; log := [] |}.

Definition marker : Z := 0.
Definition asserting : bool := true.

Definition linear_policy : vector_eval_policy := mk_policy as_linear_vec by_scalars.
Definition percol_policy : vector_eval_policy := mk_policy per_column by_scalars.

(** Columns of four and of three cells, a 2 x 2 matrix without stride, a 2 x 2
    view whose columns are three cells apart and a column of two cells,
    each at a given address, with the compile-time sizes of a
    destination of the same static shape. *)

Definition column4_at (p : addr) : dense_mat := mk_dense p 4 1 4.
Definition column4_ct : binary_ct := mk_binary_ct 4 4 1.
Definition column3_at (p : addr) : dense_mat := mk_dense p 3 1 3.
Definition column3_ct : binary_ct := mk_binary_ct 3 3 1.
Definition square_at (p : addr) : dense_mat := mk_dense p 2 2 2.
Definition strided_at (p : addr) : dense_mat := mk_dense p 2 2 3.
Definition square_ct : binary_ct := mk_binary_ct 4 2 2.
Definition column2_at (p : addr) : dense_mat := mk_dense p 2 1 2.
Definition column2_ct : binary_ct := mk_binary_ct 2 2 1.

(** The compile-time sizes of a destination whose extents are all
    dynamic. *)


(** [A + 1] for the column [A] of two cells at address 0, and twice a
    2 x 2 matrix at address 100. *)

Definition plus_one : @Xpr Z := XLazy (fun h i j => h (0 + i + j * 2) + 1) 2 1.
Definition doubled : @Xpr Z := XLazy (fun h i j => 2 * h (100 + i + j * 2)) 2 2.

(** The machine a call leaves, [start] if the call does not build. *)

Definition after (r : option (@machine Z)) : @machine Z :=
  match r with
  | Some m => m
  | None => start
  end.

(** The cells [p, p + 1, ..., p + n - 1] of a machine's memory. *)

Definition cells (m : @machine Z) (p : addr) (n : nat) : list Z :=
  map (fun k => load (mem m) (p + Z.of_nat k)) (seq 0 n).

(** ** The interfaces of the evaluator classes *)

(** [is_linear_vector_evaluator<Eva, T>::value] and
    [is_percol_vector_evaluator<Eva, T>::value]: whether the class
    derives from the interface, as the six class heads say. *)

Definition is_linear_vector_evaluator (c : evaluator_class) : bool :=
  match c with
  | continuous_linear_evaluator => true
  | const_linear_evaluator => true
  | cached_linear_evaluator => true
  | _ => false
  end.

Definition is_percol_vector_evaluator (c : evaluator_class) : bool :=
  match c with
  | dense_percol_evaluator => true
  | const_percol_evaluator => true
  | cached_percol_evaluator => true
  | _ => false
  end.

(** The classes that own a temporary [m_cache], and whether the map
    sends a type to one of them. *)

Definition is_cached_evaluator (c : evaluator_class) : bool :=
  match c with
  | cached_linear_evaluator => true
  | cached_percol_evaluator => true
  | _ => false
  end.

Definition routed_to_cache (E : ExprType) (o : Org) : bool :=
  match vector_eval E o by_scalars with
  | Some ve => is_cached_evaluator (evaluator_type ve)
  | None => false
  end.

(** How many writes and how many calls of [next_column] a log records. *)

Definition is_write (e : event) : bool :=
  match e with
  | EvWrite _ => true
  | _ => false
  end.

Definition is_next_column (e : event) : bool :=
  match e with
  | EvNextColumn => true
  | _ => false
  end.

Definition count_writes (l : list event) : nat := length (filter is_write l).

Definition count_next_columns (l : list event) : nat :=
  length (filter is_next_column l).

(** ** Random bits to reals in [1, 2): uniform_real_internal.h *)

Module random.
Module internal.

(** An unsigned integer is its value.  A [float] or a [double] is its
    bit pattern, the other member of the union the scalar routines
    write; a register ([__m128i], [__m128], [__m128d] and the 256-bit
    ones) is its bit pattern too, so the casts [_mm_castsi128_ps] and
    the like are the identity. *)

Definition randbits_to_c1o2_f32 (u : Z) : Z :=
  Z.lor (Z.land u 0x007fffff) 0x3f800000.

Definition randbits_to_c1o2_f64 (u : Z) : Z :=
  Z.lor (Z.land u 0x000fffffffffffff) 0x3ff0000000000000.

(** The bit patterns of the constants [1.0f], [-2.0f], [1.0] and
    [-2.0]. *)

Definition f32_one : Z := 0x3f800000.
Definition f32_neg_two : Z := 0xc0000000.
Definition f64_one : Z := 0x3ff0000000000000.
Definition f64_neg_two : Z := 0xc000000000000000.

(** [set1 w n c]: [n] lanes of [w] bits, each holding [c]. *)

Fixpoint set1 (w : Z) (n : nat) (c : Z) : Z :=
  match n with
  | O => 0
  | Datatypes.S k => Z.lor c (Z.shiftl (set1 w k c) w)
  end.

Definition mm_set1_ps (c : Z) : Z := set1 32 4 c.
Definition mm_set1_pd (c : Z) : Z := set1 64 2 c.
Definition mm256_set1_ps (c : Z) : Z := set1 32 8 c.
Definition mm256_set1_pd (c : Z) : Z := set1 64 4 c.

(** [_mm_or_ps], [_mm_or_pd] and the 256-bit ones are the bitwise or of
    the registers; [_mm_andnot_ps(a, b)] and the like are
    [(NOT a) AND b]. *)

Definition mm_or (a b : Z) : Z := Z.lor a b.
Definition mm_andnot (a b : Z) : Z := Z.land (Z.lnot a) b.

Definition randbits_to_c1o2_f32_sse (u : Z) : Z :=
  mm_or (mm_set1_ps f32_one) (mm_andnot (mm_set1_ps f32_neg_two) u).

Definition randbits_to_c1o2_f64_sse (u : Z) : Z :=
  mm_or (mm_set1_pd f64_one) (mm_andnot (mm_set1_pd f64_neg_two) u).

Definition randbits_to_c1o2_f32_avx (u : Z) : Z :=
  mm_or (mm256_set1_ps f32_one) (mm_andnot (mm256_set1_ps f32_neg_two) u).

Definition randbits_to_c1o2_f64_avx (u : Z) : Z :=
  mm_or (mm256_set1_pd f64_one) (mm_andnot (mm256_set1_pd f64_neg_two) u).

(** Lane [k] of a register whose lanes are [w] bits wide. *)

Definition lane (w k : Z) (x : Z) : Z :=
  Z.land (Z.shiftr x (w * k)) (Z.ones w).

(** The number a bit pattern stands for in an IEEE 754 binary format
    with the given field widths ([float] is binary32, [double] is
    binary64): sign, biased exponent and fraction fields, and the value
    of a finite pattern as a rational; an all-ones exponent (an
    infinity or a NaN) has none. *)

Record float_format := mk_format { exponent_bits : Z; fraction_bits : Z }.

Definition binary32 : float_format := mk_format 8 23.
Definition binary64 : float_format := mk_format 11 52.

Definition exponent_bias (f : float_format) : Z := 2 ^ (exponent_bits f - 1) - 1.

Definition sign_of (f : float_format) (x : Z) : bool :=
  Z.testbit x (exponent_bits f + fraction_bits f).

Definition exponent_of (f : float_format) (x : Z) : Z :=
  Z.land (Z.shiftr x (fraction_bits f)) (Z.ones (exponent_bits f)).

Definition fraction_of (f : float_format) (x : Z) : Z :=
  Z.land x (Z.ones (fraction_bits f)).

Definition real_of (f : float_format) (x : Z) : option Q :=
  let e := exponent_of f x in
  let m := (inject_Z (fraction_of f x) / inject_Z (2 ^ fraction_bits f))%Q in
  if e =? Z.ones (exponent_bits f) then None
  else
    let magnitude :=
      if e =? 0 then (m * Qpower 2 (1 - exponent_bias f))%Q
      else ((1 + m) * Qpower 2 (e - exponent_bias f))%Q in
    Some (if sign_of f x then (- magnitude)%Q else magnitude).

End internal.
End random.

End lmat.

Import lmat.

(** * Properties *)

(** ** The cost model and the evaluator map *)

Lemma generic_percol_cost_eq (E : ExprType) :
  generic_percol_cost E =
  generic_percol_normal_cost E +
  (if ct_rows E <? SHORTVEC_LENGTH_THRESHOLD then SHORTVEC_PERCOL_COST else 0).
Proof.
  unfold generic_percol_cost, generic_percol_shortv_cost, has_short_col.
  destruct (ct_rows E <? SHORTVEC_LENGTH_THRESHOLD); lia.
Qed.

Lemma generic_costs_nonneg (E : ExprType) :
  0 <= generic_linear_cost E /\ 0 <= generic_percol_normal_cost E.
Proof.
  unfold generic_linear_cost, generic_percol_normal_cost, VEC_EVAL_CACHE_COST.
  destruct (linear_can_direct E), (percol_can_direct E); lia.
Qed.

(** The linear cost never exceeds the per-column cost unless the type is
    dense with a stride. *)

Lemma generic_linear_le_percol (E : ExprType) :
  is_dense_mat E = false \/ ct_has_continuous_layout E = true ->
  generic_linear_cost E <= generic_percol_cost E.
Proof.
  rewrite generic_percol_cost_eq.
  unfold generic_linear_cost, generic_percol_normal_cost, linear_can_direct,
    percol_can_direct, VEC_EVAL_CACHE_COST, SHORTVEC_PERCOL_COST.
  intros [H | H]; rewrite H;
    destruct (ct_rows E <? SHORTVEC_LENGTH_THRESHOLD);
    try destruct (is_dense_mat E); try destruct (ct_has_continuous_layout E);
    cbn; lia.
Qed.

(** With a short compile-time column and a continuous layout, the
    generic per-column cost is strictly above the generic linear cost. *)

Lemma generic_short_column_strict (E : ExprType) :
  ct_has_continuous_layout E = true ->
  ct_rows E < SHORTVEC_LENGTH_THRESHOLD ->
  generic_linear_cost E < generic_percol_cost E.
Proof.
  intros Hc Hr. rewrite generic_percol_cost_eq.
  apply Z.ltb_lt in Hr. rewrite Hr.
  unfold generic_linear_cost, generic_percol_normal_cost, linear_can_direct,
    percol_can_direct, VEC_EVAL_CACHE_COST, SHORTVEC_PERCOL_COST.
  rewrite Hc. destruct (is_dense_mat E); cbn; lia.
Qed.

(** Where the default policy exists, it takes the linear organization
    exactly when the linear cost is at most the per-column cost. *)

Lemma default_policy_choice (E : ExprType) (p : default_policy) :
  vector_eval_default_policy E = Some p ->
  (org p = as_linear_vec <-> linear_cost p <= percol_cost p) /\
  (org p = per_column <-> percol_cost p < linear_cost p).
Proof.
  unfold vector_eval_default_policy.
  destruct (member cost (vector_eval E as_linear_vec by_scalars)) as [l|];
    [|discriminate].
  destruct (member cost (vector_eval E per_column by_scalars)) as [c|];
    [|discriminate].
  intros [= <-]; cbn. unfold if_c.
  destruct (Z.leb_spec l c); split; split; intros; try lia;
    try discriminate; reflexivity.
Qed.

(** The default policy exists for the [const_matrix] types only: the
    partial specialization of [vector_eval] for [per_column] has no
    [cost]. *)

Lemma default_policy_exists_iff (E : ExprType) :
  vector_eval_default_policy E <> None <-> is_const_matrix E = true.
Proof.
  unfold vector_eval_default_policy, vector_eval.
  destruct (is_const_matrix E); cbn; split; intros H;
    try discriminate; try reflexivity; try congruence.
Qed.

(** C3, as amended.  The generic per-column cost is zero for a dense
    type and the cache penalty otherwise, plus the short-vector penalty
    exactly when the value of [ct_rows] is below the threshold;
    [has_short_col] does not ask whether the row count is statically
    known, so with a dynamic marker that is no positive size a type with
    a dynamic row count is charged the penalty too. *)

Theorem percol_cost_charges_short_columns (DynamicDim : Z) (E : ExprType) :
  DynamicDim <= 0 ->
  member cost (generic_vector_eval E per_column by_scalars)
    = Some (generic_percol_cost E) /\
  generic_percol_normal_cost E
    = (if is_dense_mat E then 0 else VEC_EVAL_CACHE_COST) /\
  generic_percol_cost E
    = generic_percol_normal_cost E +
      (if ct_rows E <? SHORTVEC_LENGTH_THRESHOLD
       then SHORTVEC_PERCOL_COST else 0) /\
  (ct_rows E = DynamicDim ->
   generic_percol_cost E = generic_percol_normal_cost E + SHORTVEC_PERCOL_COST).
Proof.
  intros Hd. split; [reflexivity|]. split; [reflexivity|].
  split; [apply generic_percol_cost_eq|].
  intros Hr. rewrite generic_percol_cost_eq.
  assert (H : (ct_rows E <? SHORTVEC_LENGTH_THRESHOLD) = true)
    by (apply Z.ltb_lt; unfold SHORTVEC_LENGTH_THRESHOLD; lia).
  rewrite H. reflexivity.
Qed.

Lemma percol_cost_charges_short_columns_witness :
  generic_percol_cost (dynamic_dense_type 0) = 0 + 200.
Proof.
  apply (percol_cost_charges_short_columns 0 (dynamic_dense_type 0)).
  - lia.
  - reflexivity.
Defined.

(** C3, the claim as written fails: a dense type whose row count is
    dynamic is charged the short-vector penalty, for the marker 0 as for
    the marker -1. *)

Lemma dynamic_rows_are_charged :
  generic_percol_normal_cost (dynamic_dense_type 0) = 0 /\
  generic_percol_cost (dynamic_dense_type 0) = SHORTVEC_PERCOL_COST /\
  generic_percol_normal_cost (dynamic_dense_type (-1)) = 0 /\
  generic_percol_cost (dynamic_dense_type (-1)) = SHORTVEC_PERCOL_COST /\
  generic_percol_cost (dynamic_dense_type 0)
    <> generic_percol_normal_cost (dynamic_dense_type 0).
Proof. repeat split; discriminate. Qed.

(** C4, the selector on a type that is not a [const_matrix]: dense,
    continuous, two rows.  The generic costs are 0 and 200, but
    [vector_eval<Expr, per_column, by_scalars>] has no member [cost], so
    the default policy does not exist and selects nothing. *)

Theorem default_policy_missing_for_generic_types :
  let E := dense_contiguous_type 2 2 in
  member cost (vector_eval E as_linear_vec by_scalars) = Some 0 /\
  member cost (generic_vector_eval E per_column by_scalars) = Some 200 /\
  member normal_cost (vector_eval E per_column by_scalars) = Some 0 /\
  member shortv_cost (vector_eval E per_column by_scalars) = Some 200 /\
  member cost (vector_eval E per_column by_scalars) = None /\
  vector_eval_default_policy E = None.
Proof. repeat split. Qed.

(** C5.  Under linear organization the generic map gives cost zero and
    the continuous evaluator exactly when the type is dense with
    continuous layout, and the cache penalty and the cached linear
    evaluator otherwise; [vector_eval] forwards both for every type that
    is not a [const_matrix], and no type that is dense with continuous
    layout gets the cached evaluator. *)

Theorem linear_map_direct_iff_dense_contiguous (E : ExprType) :
  exists g,
    generic_vector_eval E as_linear_vec by_scalars = Some g /\
    ((evaluator_type g = continuous_linear_evaluator /\ cost g = Some 0) <->
     (is_dense_mat E = true /\ ct_has_continuous_layout E = true)) /\
    (~ (is_dense_mat E = true /\ ct_has_continuous_layout E = true) ->
     evaluator_type g = cached_linear_evaluator /\
     cost g = Some VEC_EVAL_CACHE_COST) /\
    (is_const_matrix E = false ->
     exists v, vector_eval E as_linear_vec by_scalars = Some v /\
               evaluator_type v = evaluator_type g /\ cost v = cost g) /\
    (is_dense_mat E = true -> ct_has_continuous_layout E = true ->
     forall v, vector_eval E as_linear_vec by_scalars = Some v ->
               evaluator_type v <> cached_linear_evaluator).
Proof.
  exists {| evaluator_type := generic_linear_evaluator_type E;
            cost := Some (generic_linear_cost E);
            normal_cost := None; shortv_cost := None |}.
  split; [reflexivity|].
  unfold vector_eval, generic_vector_eval, generic_linear_evaluator_type,
    generic_linear_cost, linear_can_direct, if_c, VEC_EVAL_CACHE_COST.
  destruct (is_dense_mat E), (ct_has_continuous_layout E),
    (is_const_matrix E); cbn; (split; [|split; [|split]]).
  all: try (split; intros [A B]; try congruence; split; reflexivity).
  all: try (intros Hn; try (exfalso; apply Hn; split; reflexivity);
            split; reflexivity).
  all: try (intros Hf;
            first [congruence
                  |eexists; split; [reflexivity|split; reflexivity]]).
  all: intros A B v Hv; first [congruence | inversion Hv; subst; cbn; discriminate].
Qed.

Lemma linear_map_direct_iff_dense_contiguous_witness :
  exists g,
    generic_vector_eval (dense_contiguous_type 3 3) as_linear_vec by_scalars
      = Some g /\
    evaluator_type g = continuous_linear_evaluator /\ cost g = Some 0.
Proof.
  destruct (linear_map_direct_iff_dense_contiguous (dense_contiguous_type 3 3))
    as [g [Hg [Hiff _]]].
  exists g. split; [exact Hg|]. apply Hiff. split; reflexivity.
Defined.

(** ** The loop engines *)

Section Properties.

Context {T : Type}.
Variable DynamicDim : Z.
Variable LMAT_USE_STATIC_ASSERT : bool.

Local Abbreviation heap := (@heap T).
Local Abbreviation machine := (@machine T).
Local Abbreviation Xpr := (@Xpr T).
Local Abbreviation XDense := (@XDense T).
Local Abbreviation has_type := (@has_type T).
Local Abbreviation next_column := (@next_column T _ _).
Local Abbreviation percol_get_value := (@percol_get_value T _ _).
Local Abbreviation get_value := (@get_value T _ _).
Local Abbreviation static_assert := (static_assert LMAT_USE_STATIC_ASSERT).
Local Abbreviation static_size_ok := (static_size_ok DynamicDim LMAT_USE_STATIC_ASSERT).
Local Abbreviation new_continuous_linear :=
  (@new_continuous_linear T LMAT_USE_STATIC_ASSERT).
Local Abbreviation linear_eval_impl :=
  (linear_eval_impl DynamicDim LMAT_USE_STATIC_ASSERT).
Local Abbreviation percol_eval_impl :=
  (percol_eval_impl DynamicDim LMAT_USE_STATIC_ASSERT).
Local Abbreviation evaluate := (@evaluate T DynamicDim LMAT_USE_STATIC_ASSERT).
Local Abbreviation traversal_length := (traversal_length DynamicDim).
Local Abbreviation column_length := (column_length DynamicDim).
Local Abbreviation footprint := (footprint DynamicDim).
Local Abbreviation shapes_match := (@shapes_match T DynamicDim).

Lemma for_loop_snoc {S : Type} (body : index_t -> S -> S) (n : nat) :
  forall i s,
    for_loop (Datatypes.S n) i body s
    = body (i + Z.of_nat n) (for_loop n i body s).
Proof.
  induction n as [|n IH]; intros i s.
  - cbn. now rewrite Z.add_0_r.
  - change (for_loop (Datatypes.S (Datatypes.S n)) i body s)
      with (for_loop (Datatypes.S n) (i + 1) body (body i s)).
    rewrite IH. cbn [for_loop].
    replace (i + 1 + Z.of_nat n) with (i + Z.of_nat (Datatypes.S n)) by lia.
    reflexivity.
Qed.

Lemma load_store_same (h : heap) (p : addr) (v : T) :
  load (store h p v) p = v.
Proof. unfold load, store. now rewrite Z.eqb_refl. Qed.

Lemma load_store_other (h : heap) (p q : addr) (v : T) :
  q <> p -> load (store h p v) q = load h q.
Proof.
  intros H. unfold load, store.
  destruct (Z.eqb_spec q p); [contradiction | reflexivity].
Qed.

Lemma in_range_to_nat (pd : addr) (len : index_t) (a : addr) :
  in_range pd (Z.of_nat (Z.to_nat len)) a <-> in_range pd len a.
Proof. unfold in_range. lia. Qed.

Lemma seq_snoc (n : nat) : seq 0 (Datatypes.S n) = seq 0 n ++ [n].
Proof. now rewrite seq_S. Qed.

(** *** The single loop *)

Lemma fill_prefix_S (g : heap -> index_t -> T) (pd : addr) (n : nat)
  (m : machine) :
  fill_prefix g pd (Datatypes.S n) m
  = write (pd + Z.of_nat n)
      (g (mem (fill_prefix g pd n m)) (Z.of_nat n)) (fill_prefix g pd n m).
Proof.
  unfold fill_prefix. rewrite for_loop_snoc. now rewrite Z.add_0_l.
Qed.

Lemma fill_prefix_log (g : heap -> index_t -> T) (pd : addr) (n : nat)
  (m : machine) :
  log (fill_prefix g pd n m)
  = log m ++ map (fun i => EvWrite (pd + i)) (map Z.of_nat (seq 0 n)).
Proof.
  induction n as [|n IH].
  - cbn. now rewrite app_nil_r.
  - rewrite fill_prefix_S, seq_snoc, !map_app. cbn [write log map].
    rewrite IH, <- app_assoc. reflexivity.
Qed.

Lemma fill_prefix_frame (g : heap -> index_t -> T) (pd : addr) (n : nat)
  (m : machine) (a : addr) :
  ~ in_range pd (Z.of_nat n) a ->
  mem (fill_prefix g pd n m) a = mem m a.
Proof.
  unfold in_range. induction n as [|n IH]; intros Ha.
  - reflexivity.
  - rewrite fill_prefix_S. cbn [write mem].
    change (store ?h ?p ?v a) with (load (store h p v) a).
    rewrite load_store_other by lia. unfold load. apply IH. lia.
Qed.

Lemma fill_prefix_value (g : heap -> index_t -> T) (pd : addr) (n : nat)
  (m : machine) (i : nat) :
  (i < n)%nat ->
  mem (fill_prefix g pd n m) (pd + Z.of_nat i)
  = g (mem (fill_prefix g pd i m)) (Z.of_nat i).
Proof.
  induction n as [|n IH]; intros Hi; [lia|].
  rewrite fill_prefix_S. cbn [write mem].
  change (store ?h ?p ?v ?a) with (load (store h p v) a).
  destruct (Nat.eq_dec i n) as [->|Hne].
  - now rewrite load_store_same.
  - rewrite load_store_other by lia. unfold load. apply IH. lia.
Qed.

Lemma fill_prefix_agree (g : heap -> index_t -> T) (pd : addr) (n : nat)
  (m : machine) (F : addr -> Prop) (k : nat) :
  (forall a, in_range pd (Z.of_nat n) a -> F a) ->
  (k <= n)%nat ->
  agree_outside F (mem m) (mem (fill_prefix g pd k m)).
Proof.
  intros HF Hk a Ha. symmetry. apply fill_prefix_frame.
  intros Hin. apply Ha, HF. unfold in_range in *. lia.
Qed.

(** When what the evaluator returns does not depend on the cells the
    loop writes, every cell ends with the value the evaluator had for it
    at the start. *)

Lemma fill_prefix_stable (g : heap -> index_t -> T) (pd : addr) (n : nat)
  (m : machine) (F : addr -> Prop) (v : index_t -> T) :
  (forall a, in_range pd (Z.of_nat n) a -> F a) ->
  (forall i h', 0 <= i < Z.of_nat n -> agree_outside F (mem m) h' ->
                g h' i = v i) ->
  forall i, 0 <= i < Z.of_nat n ->
    mem (fill_prefix g pd n m) (pd + i) = v i.
Proof.
  intros HF Hg i Hi.
  replace i with (Z.of_nat (Z.to_nat i)) by lia.
  rewrite fill_prefix_value by lia.
  apply Hg; [lia|]. apply fill_prefix_agree with (n := n); [exact HF | lia].
Qed.

(** *** The loop over the columns *)

Section PerCol.

Context {Eva : Type} `{PC : @IPerColVectorEvaluator T Eva}.
Variables (rows : index_t) (evaluator : Eva) (dst : dense_mat) (m : machine).

Local Abbreviation pd := (ptr_data dst).
Local Abbreviation ldim := (lead_dim dst).
Local Abbreviation prefix := (fun n => percol_prefix rows evaluator dst n m).

Lemma percol_column_fill (p : addr) (e : Eva) (m0 : machine) :
  percol_column rows p e m0
  = fill_prefix (percol_get_value e) p (Z.to_nat rows) m0.
Proof. reflexivity. Qed.

Lemma percol_prefix_S (n : nat) :
  prefix (Datatypes.S n) = percol_step rows ldim (Z.of_nat n) (prefix n).
Proof.
  unfold percol_prefix. rewrite for_loop_snoc. now rewrite Z.add_0_l.
Qed.

Lemma percol_prefix_pd (n : nat) :
  ps_pd (prefix n) = pd + Z.of_nat n * ldim.
Proof.
  induction n as [|n IH].
  - cbn. lia.
  - rewrite percol_prefix_S. cbn [percol_step ps_pd]. rewrite IH. lia.
Qed.

Lemma percol_prefix_evaluator (n : nat) :
  ps_evaluator (prefix n) = Nat.iter n next_column evaluator.
Proof.
  induction n as [|n IH].
  - reflexivity.
  - rewrite percol_prefix_S. cbn [percol_step ps_evaluator Nat.iter].
    now rewrite IH.
Qed.

Lemma percol_prefix_log (n : nat) :
  log (ps_machine (prefix n))
  = log m ++
    concat (map (fun j => linear_trace (pd + j * ldim) rows ++ [EvNextColumn])
                (map Z.of_nat (seq 0 n))).
Proof.
  induction n as [|n IH].
  - cbn. now rewrite app_nil_r.
  - rewrite percol_prefix_S, seq_snoc, !map_app, concat_app.
    cbn [percol_step ps_machine emit log map concat].
    rewrite percol_column_fill, fill_prefix_log, IH, percol_prefix_pd.
    rewrite app_nil_r, <- !app_assoc. reflexivity.
Qed.

Lemma percol_prefix_frame (n : nat) (a : addr) :
  ~ in_columns pd ldim rows (Z.of_nat n) a ->
  mem (ps_machine (prefix n)) a = mem m a.
Proof.
  induction n as [|n IH]; intros Ha.
  - reflexivity.
  - rewrite percol_prefix_S. cbn [percol_step ps_machine emit mem].
    rewrite percol_column_fill, fill_prefix_frame.
    + apply IH. intros (i & j & Hi & Hj & ->). apply Ha.
      exists i, j. repeat split; try lia.
    + rewrite in_range_to_nat, percol_prefix_pd. unfold in_range.
      intros Hin. apply Ha.
      exists (a - (pd + Z.of_nat n * ldim)), (Z.of_nat n).
      repeat split; try lia.
Qed.

Lemma percol_before_eq (i : index_t) (j : nat) :
  percol_before rows evaluator dst i (Z.of_nat j) m
  = fill_prefix (percol_get_value (Nat.iter j next_column evaluator))
      (pd + Z.of_nat j * ldim) (Z.to_nat i) (ps_machine (prefix j)).
Proof.
  unfold percol_before. rewrite Nat2Z.id.
  now rewrite percol_prefix_evaluator, percol_prefix_pd.
Qed.

Lemma percol_prefix_value (n j : nat) (i : index_t) :
  0 <= rows <= ldim -> (j < n)%nat -> 0 <= i < rows ->
  mem (ps_machine (prefix n)) (pd + i + Z.of_nat j * ldim)
  = percol_get_value (Nat.iter j next_column evaluator)
      (mem (percol_before rows evaluator dst i (Z.of_nat j) m)) i.
Proof.
  intros Hw Hj Hi. induction n as [|n IH]; [lia|].
  rewrite percol_prefix_S. cbn [percol_step ps_machine emit mem].
  rewrite percol_column_fill.
  destruct (Nat.eq_dec j n) as [->|Hne].
  - rewrite percol_before_eq, percol_prefix_pd, percol_prefix_evaluator.
    replace (pd + i + Z.of_nat n * ldim)
      with (pd + Z.of_nat n * ldim + Z.of_nat (Z.to_nat i)) by lia.
    rewrite fill_prefix_value by lia.
    now rewrite Z2Nat.id by lia.
  - rewrite fill_prefix_frame; [apply IH; lia|].
    rewrite in_range_to_nat, percol_prefix_pd. unfold in_range. nia.
Qed.

Lemma percol_before_agree (F : addr -> Prop) (n j : nat) (i : index_t) :
  (forall a, in_columns pd ldim rows (Z.of_nat n) a -> F a) ->
  (j < n)%nat -> 0 <= i < rows ->
  agree_outside F (mem m)
    (mem (percol_before rows evaluator dst i (Z.of_nat j) m)).
Proof.
  intros HF Hj Hi a Ha. rewrite percol_before_eq.
  rewrite fill_prefix_frame.
  - symmetry. apply percol_prefix_frame.
    intros (i' & j' & Hi' & Hj' & ->). apply Ha, HF.
    exists i', j'. repeat split; lia.
  - unfold in_range. intros Hin. apply Ha, HF.
    exists (a - (pd + Z.of_nat j * ldim)), (Z.of_nat j).
    repeat split; lia.
Qed.

(** When what the evaluator returns does not depend on the cells the
    engine writes, cell [(i, j)] of a well-formed destination ends with
    the value the evaluator, advanced [j] times, had for row [i] at the
    start. *)

Lemma percol_prefix_stable (n : nat) (F : addr -> Prop)
  (v : index_t -> index_t -> T) :
  0 <= rows <= ldim ->
  (forall a, in_columns pd ldim rows (Z.of_nat n) a -> F a) ->
  (forall i j h', 0 <= i < rows -> (j < n)%nat ->
     agree_outside F (mem m) h' ->
     percol_get_value (Nat.iter j next_column evaluator) h' i = v i (Z.of_nat j)) ->
  forall i j, 0 <= i < rows -> 0 <= j < Z.of_nat n ->
    mem (ps_machine (prefix n)) (pd + i + j * ldim) = v i j.
Proof.
  intros Hw HF Hg i j Hi Hj.
  replace j with (Z.of_nat (Z.to_nat j)) by lia.
  rewrite percol_prefix_value by lia.
  apply Hg; [lia | lia |].
  apply percol_before_agree with (n := n); [exact HF | lia | lia].
Qed.

End PerCol.

(** *** The engines and [evaluate], unfolded *)

Local Abbreviation engine_trace := (engine_trace DynamicDim).

Lemma linear_eval_impl_some {Eva : Type} `{LV : @ILinearVectorEvaluator T Eva}
  (CTSize : Z) (evaluator : Eva) (dst : dense_mat) (m : machine) :
  static_size_ok CTSize ->
  linear_eval_impl CTSize by_scalars evaluator dst m
  = Some (fill_prefix (get_value evaluator) (ptr_data dst)
            (Z.to_nat (traversal_length CTSize dst)) m).
Proof.
  intros H. unfold lmat.linear_eval_impl, lmat.traversal_length.
  destruct (Z.eqb_spec CTSize DynamicDim) as [_|Hne]; [reflexivity|].
  destruct H as [H|H]; [contradiction|]. now rewrite H.
Qed.

Lemma linear_eval_impl_inv {Eva : Type} `{LV : @ILinearVectorEvaluator T Eva}
  (CTSize : Z) (mn : Means) (evaluator : Eva) (dst : dense_mat)
  (m m' : machine) :
  linear_eval_impl CTSize mn evaluator dst m = Some m' ->
  mn = by_scalars /\ static_size_ok CTSize.
Proof.
  unfold lmat.linear_eval_impl, lmat.static_size_ok.
  destruct mn; [|discriminate].
  destruct (Z.eqb_spec CTSize DynamicDim) as [He|Hne]; [auto|].
  destruct (static_assert (0 <? CTSize)); [auto | discriminate].
Qed.

Lemma percol_eval_impl_some {Eva : Type} `{PC : @IPerColVectorEvaluator T Eva}
  (CTRows CTCols : Z) (evaluator : Eva) (dst : dense_mat) (m : machine) :
  static_size_ok CTRows ->
  percol_eval_impl CTRows CTCols by_scalars evaluator dst m
  = Some (ps_machine (percol_prefix (column_length CTRows dst) evaluator dst
                        (Z.to_nat (ncolumns dst)) m)).
Proof.
  intros H. unfold lmat.percol_eval_impl, lmat.column_length.
  destruct (Z.eqb_spec CTRows DynamicDim) as [_|Hne]; [reflexivity|].
  destruct H as [H|H]; [contradiction|]. now rewrite H.
Qed.

Lemma percol_eval_impl_inv {Eva : Type} `{PC : @IPerColVectorEvaluator T Eva}
  (CTRows CTCols : Z) (mn : Means) (evaluator : Eva) (dst : dense_mat)
  (m m' : machine) :
  percol_eval_impl CTRows CTCols mn evaluator dst m = Some m' ->
  mn = by_scalars /\ static_size_ok CTRows.
Proof.
  unfold lmat.percol_eval_impl, lmat.static_size_ok.
  destruct mn; [|discriminate].
  destruct (Z.eqb_spec CTRows DynamicDim) as [He|Hne]; [auto|].
  destruct (static_assert (0 <? CTRows)); [auto | discriminate].
Qed.

Lemma evaluate_linear_unfold (E : ExprType) (ct : binary_ct) (src : Xpr)
  (dst : dense_mat) (m : machine) :
  evaluate E ct src dst (mk_policy as_linear_vec by_scalars) m =
  if is_const_matrix E then
    match new_const_linear src with
    | Some ev => linear_eval_impl (binary_ct_size ct) by_scalars ev dst m
    | None => None
    end
  else if is_dense_mat E && ct_has_continuous_layout E then
    match new_continuous_linear E src with
    | Some ev => linear_eval_impl (binary_ct_size ct) by_scalars ev dst m
    | None => None
    end
  else
    linear_eval_impl (binary_ct_size ct) by_scalars
      (fst (new_cached_linear src m)) dst (snd (new_cached_linear src m)).
Proof.
  unfold lmat.evaluate, vector_eval, generic_vector_eval,
    generic_linear_evaluator_type, linear_can_direct, if_c.
  destruct (is_const_matrix E); cbn; [reflexivity|].
  destruct (is_dense_mat E && ct_has_continuous_layout E); reflexivity.
Qed.

Lemma evaluate_percol_unfold (E : ExprType) (ct : binary_ct) (src : Xpr)
  (dst : dense_mat) (m : machine) :
  evaluate E ct src dst (mk_policy per_column by_scalars) m =
  if is_const_matrix E then
    match new_const_percol src with
    | Some ev =>
        percol_eval_impl (binary_ct_rows ct) (binary_ct_cols ct) by_scalars
          ev dst m
    | None => None
    end
  else if is_dense_mat E then
    match new_dense_percol src with
    | Some ev =>
        percol_eval_impl (binary_ct_rows ct) (binary_ct_cols ct) by_scalars
          ev dst m
    | None => None
    end
  else
    percol_eval_impl (binary_ct_rows ct) (binary_ct_cols ct) by_scalars
      (fst (new_cached_percol src m)) dst (snd (new_cached_percol src m)).
Proof.
  unfold lmat.evaluate, vector_eval, generic_vector_eval,
    generic_percol_evaluator_type, percol_can_direct, if_c.
  destruct (is_const_matrix E); cbn; [reflexivity|].
  destruct (is_dense_mat E); reflexivity.
Qed.

Lemma evaluate_by_simd (E : ExprType) (ct : binary_ct) (src : Xpr)
  (dst : dense_mat) (o : Org) (m : machine) :
  evaluate E ct src dst (mk_policy o by_simd) m = None.
Proof.
  unfold lmat.evaluate, vector_eval, generic_vector_eval.
  destruct (is_const_matrix E), o; reflexivity.
Qed.

Lemma traversal_length_match (ct : binary_ct) (src : Xpr) (dst : dense_mat) :
  shapes_match ct src dst ->
  traversal_length (binary_ct_size ct) dst = nelems dst.
Proof.
  intros (_ & _ & H & _). unfold lmat.traversal_length.
  destruct (Z.eqb_spec (binary_ct_size ct) DynamicDim); [reflexivity|].
  destruct H; [contradiction | assumption].
Qed.

Lemma column_length_match (ct : binary_ct) (src : Xpr) (dst : dense_mat) :
  shapes_match ct src dst ->
  column_length (binary_ct_rows ct) dst = nrows dst.
Proof.
  intros (_ & _ & _ & H). unfold lmat.column_length.
  destruct (Z.eqb_spec (binary_ct_rows ct) DynamicDim); [reflexivity|].
  destruct H; [contradiction | assumption].
Qed.

(** Without stride, the flattened sequence of a dense matrix is the run
    of cells from its data pointer. *)

Lemma flatten_contiguous (X : dense_mat) (h : heap) (k : index_t) :
  lead_dim X = nrows X \/ ncolumns X = 1 ->
  0 <= nrows X -> 0 <= k < nelems X ->
  flatten X h k = load h (ptr_data X + k).
Proof.
  unfold flatten, dense_elem, nelems. intros Hc Hr Hk. f_equal.
  destruct Hc as [Hc|Hc]; rewrite Hc in *.
  - assert (nrows X <> 0) by nia.
    pose proof (Z.div_mod k (nrows X) ltac:(assumption)). lia.
  - rewrite Z.mod_small, Z.div_small by lia. lia.
Qed.

(** *** Linear organization *)

(** C1, as amended.  For every linear evaluator and destination the
    engine builds (for a size it accepts) and performs, in increasing
    order of [i], exactly the writes [dst[i] = evaluator.get_value(i)]
    for [i] from 0 up to the traversal length: the compile-time size
    when it is not the dynamic marker, the destination's element count
    otherwise.  Each cell keeps the value [get_value(i)] returned when
    its turn came, and no other cell changes.  In particular, for a
    dense expression with continuous layout and a destination of its
    shape whose cells are none of the source's cells, [evaluate] under
    linear organization leaves [dst[i]] equal to the [i]-th element of
    the flattened source, which is unchanged. *)

Theorem linear_engine_copies_evaluator_values :
  (forall (Eva : Type) (LV : @ILinearVectorEvaluator T Eva) (evaluator : Eva)
          (CTSize : Z) (dst : dense_mat) (m : machine),
     static_size_ok CTSize ->
     exists m',
       linear_eval_impl CTSize by_scalars evaluator dst m = Some m' /\
       traversal_length CTSize dst
         = (if CTSize =? DynamicDim then nelems dst else CTSize) /\
       log m' = log m ++
                map (fun i => EvWrite (ptr_data dst + i))
                    (zrange (traversal_length CTSize dst)) /\
       (forall i, 0 <= i < traversal_length CTSize dst ->
          load (mem m') (ptr_data dst + i)
          = get_value evaluator (mem (linear_before evaluator dst i m)) i) /\
       (forall a, ~ in_range (ptr_data dst) (traversal_length CTSize dst) a ->
          load (mem m') a = load (mem m) a)) /\
  (forall (E : ExprType) (ct : binary_ct) (X dst : dense_mat) (m : machine),
     has_type E (XDense X) ->
     ct_has_continuous_layout E = true ->
     shapes_match ct (XDense X) dst ->
     static_size_ok (binary_ct_size ct) ->
     0 <= nrows dst ->
     (forall a, in_range (ptr_data X) (nelems X) a ->
                ~ in_range (ptr_data dst) (nelems dst) a) ->
     exists m',
       evaluate E ct (XDense X) dst (mk_policy as_linear_vec by_scalars) m
         = Some m' /\
       forall i, 0 <= i < nelems dst ->
         load (mem m') (ptr_data dst + i) = flatten X (mem m) i /\
         flatten X (mem m') i = flatten X (mem m) i).
Proof.
  split.
  - intros Eva LV evaluator CTSize dst m Hok.
    eexists. split; [apply linear_eval_impl_some; exact Hok|].
    split; [reflexivity|].
    split; [apply fill_prefix_log|].
    split.
    + intros i Hi. unfold load, linear_before.
      replace (ptr_data dst + i)
        with (ptr_data dst + Z.of_nat (Z.to_nat i)) by lia.
      rewrite fill_prefix_value by lia.
      now rewrite Z2Nat.id by lia.
    + intros a Ha. unfold load. apply fill_prefix_frame.
      now rewrite in_range_to_nat.
  - intros E ct X dst m (Hk & Hd & Hlay) Hc Hsm Hok Hr Hsep.
    pose proof (traversal_length_match _ _ _ Hsm) as Hlen.
    destruct Hsm as (Hnr & Hnc & _). cbn in Hnr, Hnc.
    assert (HnX : nelems X = nelems dst)
      by (unfold nelems; now rewrite Hnr, Hnc).
    rewrite evaluate_linear_unfold, Hk, Hd, Hc. cbn.
    unfold lmat.static_assert. rewrite Hc, orb_true_r.
    eexists. split; [apply linear_eval_impl_some; exact Hok|].
    rewrite Hlen. intros i Hi.
    rewrite !flatten_contiguous by (auto; lia). unfold load.
    split.
    + apply (fill_prefix_stable _ _ _ _
               (in_range (ptr_data dst) (nelems dst))
               (fun i => mem m (ptr_data X + i))).
      * intros a. now rewrite in_range_to_nat.
      * intros k h' Hk' Hag. cbn. unfold load. symmetry. apply Hag.
        apply Hsep. unfold in_range. lia.
      * lia.
    + apply fill_prefix_frame. rewrite in_range_to_nat.
      apply Hsep. unfold in_range. lia.
Qed.

(** The dense per-column evaluator after [n] calls of [next_column]. *)

Lemma dense_percol_iter (l : index_t) (p : addr) (n : nat) :
  Nat.iter n next_column {| dp_m_ldim := l; dp_m_data := p |}
  = {| dp_m_ldim := l; dp_m_data := p + Z.of_nat n * l |}.
Proof.
  induction n as [|n IH].
  - cbn. f_equal. lia.
  - rewrite Nat.iter_succ, IH, Nat2Z.inj_succ. cbn. f_equal. lia.
Qed.

(** *** Per-column organization *)

(** C2, as amended.  For every per-column evaluator and destination the
    engine builds (for a row count it accepts) and logs, column after
    column, the writes of rows 0, 1, ... in increasing order followed
    by one call of [next_column], so the evaluator is advanced exactly
    once per column, after that column's writes and before the next
    one's.  On a well-formed destination the cell [dst[i + j*ldim]]
    keeps the value [get_value(i)] returned, when its turn came, by the
    evaluator advanced [j] times, and no other cell changes.  For a
    dense expression and a well-formed destination of its shape whose
    cells are none of the source's cells, [evaluate] under per-column
    organization leaves [dst[i + j*ldim]] equal to the source's element
    [(i, j)], which is unchanged. *)

Theorem percol_engine_copies_columns_in_order :
  (forall (Eva : Type) (PC : @IPerColVectorEvaluator T Eva) (evaluator : Eva)
          (CTRows CTCols : Z) (dst : dense_mat) (m : machine),
     static_size_ok CTRows ->
     exists m',
       percol_eval_impl CTRows CTCols by_scalars evaluator dst m = Some m' /\
       column_length CTRows dst
         = (if CTRows =? DynamicDim then nrows dst else CTRows) /\
       log m' = log m ++
                concat (map (fun j =>
                               map (fun i =>
                                      EvWrite (ptr_data dst + j * lead_dim dst + i))
                                   (zrange (column_length CTRows dst))
                               ++ [EvNextColumn])
                            (zrange (ncolumns dst))) /\
       (0 <= column_length CTRows dst <= lead_dim dst ->
        forall i j, 0 <= i < column_length CTRows dst ->
                    0 <= j < ncolumns dst ->
          load (mem m') (ptr_data dst + i + j * lead_dim dst)
          = percol_get_value (Nat.iter (Z.to_nat j) next_column evaluator)
              (mem (percol_before (column_length CTRows dst) evaluator dst i j m))
              i) /\
       (forall a, ~ in_columns (ptr_data dst) (lead_dim dst)
                      (column_length CTRows dst) (ncolumns dst) a ->
          load (mem m') a = load (mem m) a)) /\
  (forall (E : ExprType) (ct : binary_ct) (X dst : dense_mat) (m : machine),
     has_type E (XDense X) ->
     shapes_match ct (XDense X) dst ->
     static_size_ok (binary_ct_rows ct) ->
     dense_wf dst ->
     (forall a, in_columns (ptr_data X) (lead_dim X) (nrows X) (ncolumns X) a ->
                ~ in_columns (ptr_data dst) (lead_dim dst) (nrows dst)
                    (ncolumns dst) a) ->
     exists m',
       evaluate E ct (XDense X) dst (mk_policy per_column by_scalars) m
         = Some m' /\
       forall i j, 0 <= i < nrows dst -> 0 <= j < ncolumns dst ->
         load (mem m') (ptr_data dst + i + j * lead_dim dst)
           = dense_elem X (mem m) i j /\
         dense_elem X (mem m') i j = dense_elem X (mem m) i j).
Proof.
  split.
  - intros Eva PC evaluator CTRows CTCols dst m Hok.
    eexists. split; [apply percol_eval_impl_some; exact Hok|].
    split; [reflexivity|].
    split; [apply percol_prefix_log|].
    split.
    + intros Hw i j Hi Hj. unfold load.
      replace j with (Z.of_nat (Z.to_nat j)) at 1 3 by lia.
      rewrite percol_prefix_value by lia.
      now rewrite Z2Nat.id by lia.
    + intros a Ha. unfold load. apply percol_prefix_frame.
      intros (i & j & Hi & Hj & ->). apply Ha. exists i, j.
      repeat split; lia.
  - intros E ct X dst m (Hk & Hd & _) Hsm Hok Hw Hsep.
    unfold dense_wf in Hw.
    pose proof (column_length_match _ _ _ Hsm) as Hlen.
    destruct Hsm as (Hnr & Hnc & _). cbn in Hnr, Hnc.
    rewrite evaluate_percol_unfold, Hk, Hd. cbn -[lmat.percol_eval_impl].
    eexists. split; [apply percol_eval_impl_some; exact Hok|].
    rewrite Hlen. intros i j Hi Hj. unfold dense_elem, load.
    assert (Hsrc : in_columns (ptr_data X) (lead_dim X) (nrows X) (ncolumns X)
                     (ptr_data X + i + j * lead_dim X))
      by (exists i, j; repeat split; lia).
    split.
    + apply (percol_prefix_stable _ _ _ _ _
               (in_columns (ptr_data dst) (lead_dim dst) (nrows dst)
                  (ncolumns dst))
               (fun i j => mem m (ptr_data X + i + j * lead_dim X)));
        try lia.
      * intros a (i' & j' & Hi' & Hj' & ->). exists i', j'.
        repeat split; lia.
      * intros i' j' h' Hi' Hj' Hag.
        rewrite dense_percol_iter. cbn. unfold load.
        replace (ptr_data X + Z.of_nat j' * lead_dim X + i')
          with (ptr_data X + i' + Z.of_nat j' * lead_dim X) by lia.
        symmetry. apply Hag. apply Hsep.
        exists i', (Z.of_nat j'). repeat split; lia.
    + apply percol_prefix_frame.
      intros (i' & j' & Hi' & Hj' & Heq).
      apply (Hsep _ Hsrc). exists i', j'. repeat split; lia.
Qed.

(** *** The evaluators *)

Lemma cached_percol_iter (C : @dense_matrix T) (l : index_t) (p : addr)
  (n : nat) :
  Nat.iter n next_column
    {| xp_m_cache := C; xp_m_ldim := l; xp_m_data := p |}
  = {| xp_m_cache := C; xp_m_ldim := l; xp_m_data := p + Z.of_nat n * l |}.
Proof.
  induction n as [|n IH].
  - cbn. f_equal. lia.
  - rewrite Nat.iter_succ, IH, Nat2Z.inj_succ. cbn. f_equal. lia.
Qed.

Lemma const_percol_iter (e : @const_percol T) (n : nat) :
  Nat.iter n next_column e = e.
Proof.
  induction n as [|n IH]; [reflexivity|]. now rewrite Nat.iter_succ, IH.
Qed.

(** The temporary holds element [(i, j)] of the expression, as it was
    when the temporary was made, at offset [i + j * nrows]. *)

Lemma materialize_elem (src : Xpr) (h : heap) (i j : index_t) :
  0 <= i < xpr_nrows src ->
  dm_data (materialize src h) (i + j * xpr_nrows src) = xpr_elem src h i j.
Proof.
  intros Hi. cbn.
  rewrite Z.mod_add, Z.div_add by lia.
  now rewrite Z.mod_small, Z.div_small by lia.
Qed.

Lemma cached_percol_get (src : Xpr) (m : machine) (k : nat) (h : heap)
  (i : index_t) :
  percol_get_value (Nat.iter k next_column (fst (new_cached_percol src m))) h i
  = dm_data (materialize src (mem m)) (i + Z.of_nat k * xpr_nrows src).
Proof.
  unfold new_cached_percol. cbn [fst]. rewrite cached_percol_iter.
  cbn -[materialize]. f_equal. unfold dm_ptr_data, dm_lead_dim. cbn. lia.
Qed.

(** C10.  After [k] calls of [next_column] since its construction from
    a dense matrix, the dense per-column evaluator still has the lead
    dimension of that matrix and [get_value(i)] reads the cell at
    offset [i + k * ldim] from the matrix's data pointer, which is its
    element [(i, k)]; the cached per-column evaluator reads offset
    [i + k * ldim] of its own temporary, with the temporary's lead
    dimension, which is element [(i, k)] of the expression as it was at
    construction.  No destination takes part. *)

Theorem percol_evaluators_follow_columns :
  (forall (D : dense_mat) (evaluator : dense_percol) (k : nat) (h : heap)
          (i : index_t),
     new_dense_percol (XDense D) = Some evaluator ->
     dp_m_ldim (Nat.iter k next_column evaluator) = lead_dim D /\
     percol_get_value (Nat.iter k next_column evaluator) h i
       = load h (ptr_data D + (i + Z.of_nat k * lead_dim D)) /\
     percol_get_value (Nat.iter k next_column evaluator) h i
       = dense_elem D h i (Z.of_nat k)) /\
  (forall (src : Xpr) (m : machine) (k : nat) (h : heap) (i : index_t),
     let evaluator := fst (new_cached_percol src m) in
     let cache := materialize src (mem m) in
     xp_m_cache (Nat.iter k next_column evaluator) = cache /\
     xp_m_ldim (Nat.iter k next_column evaluator) = dm_lead_dim cache /\
     percol_get_value (Nat.iter k next_column evaluator) h i
       = dm_data cache (dm_ptr_data cache + (i + Z.of_nat k * dm_lead_dim cache)) /\
     (0 <= i < xpr_nrows src ->
      percol_get_value (Nat.iter k next_column evaluator) h i
        = xpr_elem src (mem m) i (Z.of_nat k))).
Proof.
  split.
  - intros D evaluator k h i [= <-]. rewrite dense_percol_iter.
    unfold dense_elem. cbn. repeat split; f_equal; lia.
  - intros src m k h i evaluator cache. subst evaluator cache.
    split; [|split; [|split]].
    + unfold new_cached_percol. cbn [fst]. now rewrite cached_percol_iter.
    + unfold new_cached_percol. cbn [fst]. now rewrite cached_percol_iter.
    + rewrite cached_percol_get. reflexivity.
    + intros Hi. rewrite cached_percol_get. now apply materialize_elem.
Qed.

(** *** Logs *)

Lemma materializations_app (l l' : list event) :
  materializations (l ++ l') = (materializations l + materializations l')%nat.
Proof. unfold materializations. now rewrite filter_app, length_app. Qed.

Lemma materializations_linear_trace (pd : addr) (len : index_t) :
  materializations (linear_trace pd len) = 0%nat.
Proof.
  unfold materializations, linear_trace, zrange.
  induction (map Z.of_nat (seq 0 (Z.to_nat len))) as [|x l IH];
    [reflexivity | exact IH].
Qed.

Lemma materializations_percol_trace (pd : addr) (ldim rows cols : index_t) :
  materializations (percol_trace pd ldim rows cols) = 0%nat.
Proof.
  unfold percol_trace, zrange.
  induction (map Z.of_nat (seq 0 (Z.to_nat cols))) as [|x l IH];
    [reflexivity|].
  cbn [map concat]. rewrite !materializations_app, IH.
  now rewrite materializations_linear_trace.
Qed.

Lemma materializations_engine_trace (ct : binary_ct) (dst : dense_mat)
  (o : Org) :
  materializations (engine_trace ct dst o) = 0%nat.
Proof.
  destruct o; [apply materializations_linear_trace
              | apply materializations_percol_trace].
Qed.

(** *** Evaluators that return one value *)



Lemma linear_loop_log (g : heap -> index_t -> T) (pd : addr) (len : index_t)
  (m : machine) :
  log (fill_prefix g pd (Z.to_nat len) m) = log m ++ linear_trace pd len.
Proof. apply fill_prefix_log. Qed.

Lemma percol_loop_log {Eva : Type} `{PC : @IPerColVectorEvaluator T Eva}
  (rows : index_t) (evaluator : Eva) (dst : dense_mat) (m : machine) :
  log (ps_machine (percol_prefix rows evaluator dst (Z.to_nat (ncolumns dst)) m))
  = log m ++ percol_trace (ptr_data dst) (lead_dim dst) rows (ncolumns dst).
Proof. apply percol_prefix_log. Qed.

(** The cell of element [(i, j)] of a destination without stride is
    cell [i + j * nrows] of its flattened sequence. *)

Lemma valid_linear_cell (dst : dense_mat) (i j : index_t) :
  valid_org as_linear_vec dst ->
  0 <= i < nrows dst -> 0 <= j < ncolumns dst ->
  ptr_data dst + i + j * lead_dim dst = ptr_data dst + (i + j * nrows dst) /\
  0 <= i + j * nrows dst < nelems dst.
Proof.
  unfold valid_org, nelems. intros [H|H] Hi Hj.
  - rewrite H. split; [lia | nia].
  - assert (j = 0) by lia. subst j. split; [lia | nia].
Qed.

(** *** Constant expressions *)

(** C7.  For a [const_matrix] type, [vector_eval] gives the constant
    evaluator of the organization with cost zero, under both
    organizations; [evaluate] builds, materializes nothing, and leaves
    every element of the destination equal to the constant, whatever
    the extents, under per-column organization for any lead dimension
    and under linear organization for a destination without stride. *)


(** *** Computed expressions *)

(** C8.  For a type that is neither dense nor a [const_matrix],
    [vector_eval] gives the cached evaluator of the organization.
    [evaluate] logs one materialization, before the first write and
    nowhere else; every [get_value] of the evaluator it constructs is a
    read of the temporary, whatever the memory holds by then; and every
    element [(i, j)] of a destination of the expression's shape ends
    equal to element [(i, j)] of the expression as it was when
    [evaluate] was called. *)


(** *** Dense expressions with a stride under linear organization *)

(** C6, as amended.  For a type that is dense without continuous layout
    (and no [const_matrix]), a request for linear organization is not
    rejected: [vector_eval] gives the cached linear evaluator at the
    cache penalty, and [evaluate] builds for every source and
    destination (whenever the engine accepts its compile-time size),
    materializes once and copies the temporary in flattened order.
    What does not build, when [LMAT_USE_STATIC_ASSERT] is defined, is a
    continuous linear evaluator over such a type. *)

Theorem strided_dense_linear_goes_through_cache (E : ExprType) :
  is_const_matrix E = false ->
  is_dense_mat E = true ->
  ct_has_continuous_layout E = false ->
  vector_eval E as_linear_vec by_scalars
    = Some {| evaluator_type := cached_linear_evaluator;
              cost := Some VEC_EVAL_CACHE_COST;
              normal_cost := None;
              shortv_cost := None |} /\
  (forall (ct : binary_ct) (src : Xpr) (dst : dense_mat) (m : machine),
     static_size_ok (binary_ct_size ct) ->
     exists m',
       evaluate E ct src dst (mk_policy as_linear_vec by_scalars) m = Some m' /\
       log m' = log m ++ EvMaterialize ::
                linear_trace (ptr_data dst)
                  (traversal_length (binary_ct_size ct) dst) /\
       forall k, 0 <= k < traversal_length (binary_ct_size ct) dst ->
         load (mem m') (ptr_data dst + k)
         = xpr_elem src (mem m) (k mod xpr_nrows src) (k / xpr_nrows src)) /\
  (LMAT_USE_STATIC_ASSERT = true ->
   forall X : Xpr, new_continuous_linear E X = None).
Proof.
  intros Hk Hd Hc. split; [|split].
  - unfold vector_eval, generic_vector_eval, generic_linear_evaluator_type,
      generic_linear_cost, linear_can_direct.
    now rewrite Hk, Hd, Hc.
  - intros ct src dst m Hok.
    rewrite evaluate_linear_unfold, Hk, Hd, Hc.
    cbn -[lmat.linear_eval_impl materialize].
    rewrite linear_eval_impl_some by exact Hok.
    eexists. split; [reflexivity|]. split.
    + rewrite linear_loop_log. cbn [emit log]. now rewrite <- app_assoc.
    + intros k Hk'. unfold load.
      apply (fill_prefix_stable _ _ _ _ (fun _ => True)
               (fun k => xpr_elem src (mem m)
                           (k mod xpr_nrows src) (k / xpr_nrows src)));
        [tauto | reflexivity | lia].
  - intros Hf X. unfold lmat.new_continuous_linear, lmat.static_assert.
    rewrite Hf, Hc. now destruct X.
Qed.

(** *** Evaluating twice *)

Lemma agree_outside_sym (F : addr -> Prop) (h h' : heap) :
  agree_outside F h h' -> agree_outside F h' h.
Proof. intros H a Ha. symmetry. now apply H. Qed.

Lemma agree_outside_trans (F : addr -> Prop) (h1 h2 h3 : heap) :
  agree_outside F h1 h2 -> agree_outside F h2 h3 -> agree_outside F h1 h3.
Proof. intros H1 H2 a Ha. now rewrite H1, H2. Qed.

Lemma flat_index_bounds (r c k : Z) :
  0 <= r -> 0 <= k < r * c -> 0 <= k mod r < r /\ 0 <= k / r < c.
Proof.
  intros Hr Hk.
  assert (r <> 0) by (intros ->; lia). assert (0 < r) by lia. split.
  - apply Z.mod_pos_bound. lia.
  - split; [apply Z.div_pos; lia|].
    apply Z.div_lt_upper_bound; lia.
Qed.

Lemma in_range_dec (pd : addr) (len : index_t) (a : addr) :
  in_range pd len a \/ ~ in_range pd len a.
Proof. unfold in_range. lia. Qed.

Lemma in_columns_dec (pd : addr) (ldim rows cols : index_t) (a : addr) :
  0 <= rows <= ldim ->
  in_columns pd ldim rows cols a \/ ~ in_columns pd ldim rows cols a.
Proof.
  intros Hw. unfold in_columns.
  destruct (Z.eq_dec rows 0) as [H0|H0].
  { right. intros (i & j & Hi & _). lia. }
  assert (Hl : 0 < ldim) by lia.
  pose proof (Z.div_mod (a - pd) ldim ltac:(lia)) as Hdm.
  pose proof (Z.mod_pos_bound (a - pd) ldim Hl) as Hmb.
  destruct (Z_lt_dec ((a - pd) mod ldim) rows) as [H1|H1].
  - destruct (Z_le_dec 0 ((a - pd) / ldim)) as [H2|H2].
    + destruct (Z_lt_dec ((a - pd) / ldim) cols) as [H3|H3].
      * left. exists ((a - pd) mod ldim), ((a - pd) / ldim).
        repeat split; lia.
      * right. intros (i & j & Hi & Hj & ->).
        replace (pd + i + j * ldim - pd) with (i + j * ldim) in * by lia.
        rewrite Z.div_add, Z.div_small in H3 by lia. lia.
    + right. intros (i & j & Hi & Hj & ->).
      replace (pd + i + j * ldim - pd) with (i + j * ldim) in * by lia.
      rewrite Z.div_add, Z.div_small in H2 by lia. lia.
  - right. intros (i & j & Hi & Hj & ->).
    replace (pd + i + j * ldim - pd) with (i + j * ldim) in * by lia.
    rewrite Z.mod_add, Z.mod_small in H1 by lia. lia.
Qed.

Lemma linear_engine_result {Eva : Type} `{LV : @ILinearVectorEvaluator T Eva}
  (CTSize : Z) (evaluator : Eva) (dst : dense_mat) (m m' : machine)
  (V : index_t -> T) :
  linear_eval_impl CTSize by_scalars evaluator dst m = Some m' ->
  (forall k h', 0 <= k < traversal_length CTSize dst ->
     agree_outside (in_range (ptr_data dst) (traversal_length CTSize dst))
       (mem m) h' ->
     get_value evaluator h' k = V k) ->
  (forall a, ~ in_range (ptr_data dst) (traversal_length CTSize dst) a ->
     mem m' a = mem m a) /\
  (forall k, 0 <= k < traversal_length CTSize dst ->
     mem m' (ptr_data dst + k) = V k).
Proof.
  intros Hev HV.
  destruct (linear_eval_impl_inv _ _ _ _ _ _ Hev) as [_ Hok].
  rewrite linear_eval_impl_some in Hev by exact Hok.
  injection Hev as <-. split.
  - intros a Ha. apply fill_prefix_frame. now rewrite in_range_to_nat.
  - intros k Hk.
    apply (fill_prefix_stable _ _ _ _
             (in_range (ptr_data dst) (traversal_length CTSize dst)) V).
    + intros a. now rewrite in_range_to_nat.
    + intros i h' Hi Hag. apply HV; [lia | exact Hag].
    + lia.
Qed.

Lemma percol_engine_result {Eva : Type} `{PC : @IPerColVectorEvaluator T Eva}
  (CTRows CTCols : Z) (evaluator : Eva) (dst : dense_mat) (m m' : machine)
  (V : index_t -> index_t -> T) :
  0 <= column_length CTRows dst <= lead_dim dst ->
  percol_eval_impl CTRows CTCols by_scalars evaluator dst m = Some m' ->
  (forall i (j : nat) h', 0 <= i < column_length CTRows dst ->
     0 <= Z.of_nat j < ncolumns dst ->
     agree_outside (in_columns (ptr_data dst) (lead_dim dst)
                      (column_length CTRows dst) (ncolumns dst)) (mem m) h' ->
     percol_get_value (Nat.iter j next_column evaluator) h' i = V i (Z.of_nat j)) ->
  (forall a, ~ in_columns (ptr_data dst) (lead_dim dst)
                 (column_length CTRows dst) (ncolumns dst) a ->
     mem m' a = mem m a) /\
  (forall i j, 0 <= i < column_length CTRows dst -> 0 <= j < ncolumns dst ->
     mem m' (ptr_data dst + i + j * lead_dim dst) = V i j).
Proof.
  intros Hw Hev HV.
  destruct (percol_eval_impl_inv _ _ _ _ _ _ _ Hev) as [_ Hok].
  rewrite percol_eval_impl_some in Hev by exact Hok.
  injection Hev as <-. split.
  - intros a Ha. apply percol_prefix_frame.
    intros (i & j & Hi & Hj & ->). apply Ha. exists i, j.
    repeat split; lia.
  - intros i j Hi Hj.
    apply (percol_prefix_stable _ _ _ _ _
             (in_columns (ptr_data dst) (lead_dim dst)
                (column_length CTRows dst) (ncolumns dst)) V); try lia.
    + intros a (i' & j' & Hi' & Hj' & ->). exists i', j'.
      repeat split; lia.
    + intros i' j' h' Hi' Hj' Hag. apply HV; [lia | lia | exact Hag].
Qed.

(** What one call of [evaluate] leaves in the memory, when the
    expression does not depend on the cells the call writes: the cells
    outside the footprint are untouched and the destination holds the
    expression's elements, read in a memory [h0] that agrees with the
    starting one outside the footprint. *)

Lemma evaluate_linear_result (E : ExprType) (ct : binary_ct) (src : Xpr)
  (dst : dense_mat) (h0 : heap) (m m' : machine) :
  has_type E src -> shapes_match ct src dst -> 0 <= nrows dst ->
  expr_independent src (footprint ct dst as_linear_vec) ->
  agree_outside (footprint ct dst as_linear_vec) h0 (mem m) ->
  evaluate E ct src dst (mk_policy as_linear_vec by_scalars) m = Some m' ->
  (forall a, ~ footprint ct dst as_linear_vec a -> mem m' a = mem m a) /\
  (forall k, 0 <= k < nelems dst ->
     mem m' (ptr_data dst + k)
     = xpr_elem src h0 (k mod nrows dst) (k / nrows dst)).
Proof.
  intros Ht Hsm Hr Hind Hag Hev.
  pose proof (traversal_length_match _ _ _ Hsm) as Hlen.
  destruct Hsm as (Hnr & Hnc & _).
  unfold lmat.footprint in *. rewrite <- Hlen.
  assert (Hb : forall k, 0 <= k < traversal_length (binary_ct_size ct) dst ->
                 0 <= k mod nrows dst < xpr_nrows src /\
                 0 <= k / nrows dst < xpr_ncolumns src).
  { intros k Hk. rewrite Hnr, Hnc. apply flat_index_bounds; [exact Hr|].
    rewrite Hlen in Hk. exact Hk. }
  rewrite evaluate_linear_unfold in Hev.
  destruct (is_const_matrix E) eqn:Hk.
  - destruct src as [X|v r c|f r c]; cbn -[lmat.linear_eval_impl] in Hev;
      try discriminate.
    apply (linear_engine_result _ _ _ _ _ _ Hev). reflexivity.
  - destruct (is_dense_mat E && ct_has_continuous_layout E) eqn:Hdc.
    + apply andb_prop in Hdc as [Hd Hc].
      destruct src as [X|v r c|f r c]; cbn -[lmat.linear_eval_impl] in Hev;
        try discriminate.
      destruct (static_assert (ct_has_continuous_layout E));
        [|discriminate].
      destruct Ht as (_ & _ & Hlay). specialize (Hlay Hc).
      cbn in Hnr, Hnc.
      apply (linear_engine_result _ _ _ _ _ _ Hev).
      intros k h' Hk' Hag'. cbn [lmat.get_value continuous_linear_ILinear cl_m_data].
      destruct (Hb k Hk') as [Hi Hj].
      rewrite <- (flatten_contiguous X h' k Hlay).
      * unfold flatten. rewrite Hnr.
        symmetry.
        apply (Hind h0 h' (agree_outside_trans _ _ _ _ Hag Hag')); assumption.
      * lia.
      * unfold nelems. rewrite Hnr, Hnc. rewrite Hlen in Hk'. exact Hk'.
    + cbn -[lmat.linear_eval_impl materialize] in Hev.
      apply (linear_engine_result _ _ _ _ _ _ Hev).
      intros k h' Hk' _. cbn. rewrite Hnr.
      destruct (Hb k Hk') as [Hi Hj].
      symmetry. apply (Hind h0 (mem m) Hag); assumption.
Qed.

Lemma evaluate_percol_result (E : ExprType) (ct : binary_ct) (src : Xpr)
  (dst : dense_mat) (h0 : heap) (m m' : machine) :
  has_type E src -> shapes_match ct src dst -> dense_wf dst ->
  expr_independent src (footprint ct dst per_column) ->
  agree_outside (footprint ct dst per_column) h0 (mem m) ->
  evaluate E ct src dst (mk_policy per_column by_scalars) m = Some m' ->
  (forall a, ~ footprint ct dst per_column a -> mem m' a = mem m a) /\
  (forall i j, 0 <= i < nrows dst -> 0 <= j < ncolumns dst ->
     mem m' (ptr_data dst + i + j * lead_dim dst) = xpr_elem src h0 i j).
Proof.
  intros Ht Hsm Hw Hind Hag Hev.
  unfold dense_wf in Hw.
  pose proof (column_length_match _ _ _ Hsm) as Hlen.
  destruct Hsm as (Hnr & Hnc & _).
  unfold lmat.footprint in *. rewrite <- Hlen. rewrite <- Hlen in Hw.
  rewrite evaluate_percol_unfold in Hev.
  destruct (is_const_matrix E) eqn:Hk.
  - destruct src as [X|v r c|f r c]; cbn -[lmat.percol_eval_impl] in Hev;
      try discriminate.
    apply (percol_engine_result _ _ _ _ _ _ _ Hw Hev).
    intros i j h' _ _ _. now rewrite const_percol_iter.
  - destruct (is_dense_mat E) eqn:Hd.
    + destruct src as [X|v r c|f r c]; cbn -[lmat.percol_eval_impl] in Hev;
        try discriminate.
      cbn in Hnr, Hnc.
      apply (percol_engine_result _ _ _ _ _ _ _ Hw Hev).
      intros i j h' Hi Hj Hag'. rewrite dense_percol_iter. cbn.
      replace (ptr_data X + Z.of_nat j * lead_dim X + i)
        with (ptr_data X + i + Z.of_nat j * lead_dim X) by lia.
      symmetry.
      apply (Hind h0 h' (agree_outside_trans _ _ _ _ Hag Hag'));
        cbn; lia.
    + cbn -[lmat.percol_eval_impl materialize] in Hev.
      apply (percol_engine_result _ _ _ _ _ _ _ Hw Hev).
      intros i j h' Hi Hj _.
      etransitivity; [apply (cached_percol_get src m j h' i)|].
      rewrite materialize_elem by lia.
      symmetry. apply (Hind h0 (mem m) Hag); lia.
Qed.

(** A call of [evaluate] that builds, builds again on any machine. *)

Lemma evaluate_builds_again (E : ExprType) (ct : binary_ct) (src : Xpr)
  (dst : dense_mat) (p : vector_eval_policy) (m m1 n : machine) :
  evaluate E ct src dst p m = Some m1 ->
  exists n', evaluate E ct src dst p n = Some n'.
Proof.
  destruct p as [o mn]. destruct mn; [|now rewrite evaluate_by_simd].
  destruct o.
  - rewrite !evaluate_linear_unfold.
    destruct (is_const_matrix E);
      [|destruct (is_dense_mat E && ct_has_continuous_layout E)].
    + destruct (new_const_linear src); [|discriminate].
      intros H. apply linear_eval_impl_inv in H as [_ Hok].
      rewrite linear_eval_impl_some by exact Hok. eauto.
    + destruct (new_continuous_linear E src); [|discriminate].
      intros H. apply linear_eval_impl_inv in H as [_ Hok].
      rewrite linear_eval_impl_some by exact Hok. eauto.
    + intros H. apply linear_eval_impl_inv in H as [_ Hok].
      rewrite linear_eval_impl_some by exact Hok. eauto.
  - rewrite !evaluate_percol_unfold.
    destruct (is_const_matrix E); [|destruct (is_dense_mat E)].
    + destruct (new_const_percol src); [|discriminate].
      intros H. apply percol_eval_impl_inv in H as [_ Hok].
      rewrite percol_eval_impl_some by exact Hok. eauto.
    + destruct (new_dense_percol src); [|discriminate].
      intros H. apply percol_eval_impl_inv in H as [_ Hok].
      rewrite percol_eval_impl_some by exact Hok. eauto.
    + intros H. apply percol_eval_impl_inv in H as [_ Hok].
      rewrite percol_eval_impl_some by exact Hok. eauto.
Qed.

(** C9, as amended.  For an expression whose elements do not depend on
    the cells the call writes, and a well-formed destination of its
    shape: when a call of [evaluate] builds, a second call with the same
    expression, destination and policy builds too and leaves every cell
    of the memory, so every element of the destination, as the first
    call left it. *)

Theorem evaluate_twice_same_contents
  (E : ExprType) (ct : binary_ct) (src : Xpr) (dst : dense_mat)
  (p : vector_eval_policy) (m m1 : machine) :
  has_type E src ->
  shapes_match ct src dst ->
  dense_wf dst ->
  expr_independent src (footprint ct dst (policy_org p)) ->
  evaluate E ct src dst p m = Some m1 ->
  exists m2,
    evaluate E ct src dst p m1 = Some m2 /\
    forall a, load (mem m2) a = load (mem m1) a.
Proof.
  intros Ht Hsm Hwf Hind Hev1.
  destruct (evaluate_builds_again _ _ _ _ _ _ _ m1 Hev1) as [m2 Hev2].
  exists m2. split; [exact Hev2|].
  destruct p as [o mn].
  destruct mn; [|rewrite evaluate_by_simd in Hev1; discriminate].
  cbn [policy_org] in Hind. unfold load. intros a.
  assert (Hrefl : agree_outside (footprint ct dst o) (mem m) (mem m))
    by (intros ? ?; reflexivity).
  destruct o.
  - destruct (evaluate_linear_result _ _ _ _ _ _ _ Ht Hsm (proj1 Hwf)
                Hind Hrefl Hev1) as [Hf1 Hv1].
    assert (Hag : agree_outside (footprint ct dst as_linear_vec)
                    (mem m) (mem m1))
      by (intros b Hb; symmetry; now apply Hf1).
    destruct (evaluate_linear_result _ _ _ _ _ _ _ Ht Hsm (proj1 Hwf)
                Hind Hag Hev2) as [Hf2 Hv2].
    destruct (in_range_dec (ptr_data dst)
                (traversal_length (binary_ct_size ct) dst) a) as [Hin|Hout].
    + rewrite (traversal_length_match _ _ _ Hsm) in Hin.
      unfold in_range in Hin.
      replace a with (ptr_data dst + (a - ptr_data dst)) by lia.
      rewrite Hv1, Hv2 by lia. reflexivity.
    + now apply Hf2.
  - destruct (evaluate_percol_result _ _ _ _ _ _ _ Ht Hsm Hwf
                Hind Hrefl Hev1) as [Hf1 Hv1].
    assert (Hag : agree_outside (footprint ct dst per_column)
                    (mem m) (mem m1))
      by (intros b Hb; symmetry; now apply Hf1).
    destruct (evaluate_percol_result _ _ _ _ _ _ _ Ht Hsm Hwf
                Hind Hag Hev2) as [Hf2 Hv2].
    pose proof (column_length_match _ _ _ Hsm) as Hlen.
    destruct (in_columns_dec (ptr_data dst) (lead_dim dst)
                (column_length (binary_ct_rows ct) dst) (ncolumns dst) a)
      as [Hin|Hout].
    + rewrite Hlen. exact Hwf.
    + rewrite Hlen in Hin. destruct Hin as (i & j & Hi & Hj & ->).
      rewrite Hv1, Hv2 by lia. reflexivity.
    + now apply Hf2.
Qed.

End Properties.

(** ** The statements at concrete inputs *)

(** The column [1; 2; 3; 4] at address 0 evaluated into a column at
    address 10: both entry points leave [1; 2; 3; 4] there, the
    per-column one after four writes and one call of [next_column]. *)

Example column_end_to_end :
  (exists m',
     linear_by_scalars_evaluate marker asserting (dense_contiguous_type 4 1)
       column4_ct (XDense (column4_at 0)) (column4_at 10) start = Some m' /\
     cells m' 10 4 = [1; 2; 3; 4] /\
     log m' = [EvWrite 10; EvWrite 11; EvWrite 12; EvWrite 13]) /\
  (exists m',
     percol_by_scalars_evaluate marker asserting (dense_contiguous_type 4 1)
       column4_ct (XDense (column4_at 0)) (column4_at 10) start = Some m' /\
     cells m' 10 4 = [1; 2; 3; 4] /\
     log m' = [EvWrite 10; EvWrite 11; EvWrite 12; EvWrite 13; EvNextColumn]).
Proof.
  split; eexists; (split; [reflexivity|]); split; reflexivity.
Qed.

Lemma linear_engine_copies_evaluator_values_witness :
  exists m',
    evaluate marker asserting (dense_contiguous_type 2 2) square_ct
      (XDense (square_at 10)) (square_at 0) linear_policy start = Some m' /\
    forall i, 0 <= i < nelems (square_at 0) ->
      load (mem m') (ptr_data (square_at 0) + i)
        = flatten (square_at 10) (mem start) i /\
      flatten (square_at 10) (mem m') i = flatten (square_at 10) (mem start) i.
Proof.
  apply (proj2 (linear_engine_copies_evaluator_values marker asserting)).
  - cbn. repeat split. intros _. left. reflexivity.
  - reflexivity.
  - cbn. repeat split; right; reflexivity.
  - right. reflexivity.
  - cbn. lia.
  - unfold in_range. cbn. lia.
Defined.

(** C1, the claim as written fails.  A column of three cells at
    address 0 is copied, under linear organization, into the column at
    address 1: the destination ends as [1; 1; 1], not as the flattened
    source [1; 2; 3] it was called with.  Copied from address 1 into
    the column at address 0, the destination ends as [2; 3; 4] and the
    flattened source reads [3; 4; 4] afterwards. *)

Lemma overlapping_source_breaks_linear_copy :
  has_type (dense_contiguous_type 3 1) (XDense (T := Z) (column3_at 0)) /\
  shapes_match marker column3_ct (XDense (T := Z) (column3_at 0)) (column3_at 1) /\
  (exists m',
     evaluate marker asserting (dense_contiguous_type 3 1) column3_ct
       (XDense (column3_at 0)) (column3_at 1) linear_policy start = Some m' /\
     cells m' 1 3 = [1; 1; 1] /\
     map (flatten (column3_at 0) (mem start)) [0; 1; 2] = [1; 2; 3] /\
     load (mem m') (ptr_data (column3_at 1) + 1)
       <> flatten (column3_at 0) (mem start) 1) /\
  (exists m',
     evaluate marker asserting (dense_contiguous_type 3 1) column3_ct
       (XDense (column3_at 1)) (column3_at 0) linear_policy start = Some m' /\
     cells m' 0 3 = [2; 3; 4] /\
     map (flatten (column3_at 1) (mem m')) [0; 1; 2] = [3; 4; 4] /\
     load (mem m') (ptr_data (column3_at 0) + 0)
       <> flatten (column3_at 1) (mem m') 0).
Proof.
  split; [cbn; repeat split; intros _; left; reflexivity|].
  split; [cbn; repeat split; right; reflexivity|].
  split; eexists; (split; [reflexivity|]);
    (split; [reflexivity|]); (split; [reflexivity|]);
    vm_compute; discriminate.
Qed.

Lemma percol_engine_copies_columns_in_order_witness :
  exists m',
    evaluate marker asserting (dense_strided_type 2 2) square_ct
      (XDense (strided_at 10)) (strided_at 0) percol_policy start = Some m' /\
    forall i j, 0 <= i < nrows (strided_at 0) ->
                0 <= j < ncolumns (strided_at 0) ->
      load (mem m') (ptr_data (strided_at 0) + i + j * lead_dim (strided_at 0))
        = dense_elem (strided_at 10) (mem start) i j /\
      dense_elem (strided_at 10) (mem m') i j
        = dense_elem (strided_at 10) (mem start) i j.
Proof.
  apply (proj2 (percol_engine_copies_columns_in_order marker asserting)).
  - cbn. repeat split. discriminate.
  - cbn. repeat split; right; reflexivity.
  - right. reflexivity.
  - unfold dense_wf. cbn. lia.
  - unfold in_columns, strided_at. cbn [ptr_data lead_dim nrows ncolumns].
    intros a (i & j & Hi & Hj & ->) (i' & j' & Hi' & Hj' & Heq). lia.
Defined.

(** C2, the claim as written fails.  A 2 x 2 view with columns three
    cells apart at address 0 is copied, under per-column organization,
    into the same kind of view at address 1: element (1, 0) of the
    destination ends as 1, and element (1, 0) of the source was 2.
    Copied from address 1 into the view at address 0, element (0, 0) of
    the destination ends as 2 and element (0, 0) of the source reads 3
    afterwards. *)

Lemma overlapping_source_breaks_percol_copy :
  has_type (dense_strided_type 2 2) (XDense (T := Z) (strided_at 0)) /\
  shapes_match marker square_ct (XDense (T := Z) (strided_at 0)) (strided_at 1) /\
  dense_wf (strided_at 1) /\
  (exists m',
     evaluate marker asserting (dense_strided_type 2 2) square_ct
       (XDense (strided_at 0)) (strided_at 1) percol_policy start = Some m' /\
     cells m' 0 6 = [1; 1; 1; 4; 4; 4] /\
     dense_elem (strided_at 0) (mem start) 1 0 = 2 /\
     load (mem m')
       (ptr_data (strided_at 1) + 1 + 0 * lead_dim (strided_at 1))
       <> dense_elem (strided_at 0) (mem start) 1 0) /\
  (exists m',
     evaluate marker asserting (dense_strided_type 2 2) square_ct
       (XDense (strided_at 1)) (strided_at 0) percol_policy start = Some m' /\
     cells m' 0 6 = [2; 3; 3; 5; 6; 6] /\
     load (mem m')
       (ptr_data (strided_at 0) + 0 + 0 * lead_dim (strided_at 0))
       <> dense_elem (strided_at 1) (mem m') 0 0).
Proof.
  split; [cbn; repeat split; discriminate|].
  split; [cbn; repeat split; right; reflexivity|].
  split; [unfold dense_wf; cbn; lia|].
  split; eexists; (split; [reflexivity|]); (split; [reflexivity|]).
  - split; [reflexivity|]. vm_compute. discriminate.
  - vm_compute. discriminate.
Qed.

Lemma strided_dense_linear_goes_through_cache_witness :
  vector_eval (dense_strided_type 2 2) as_linear_vec by_scalars
    = Some {| evaluator_type := cached_linear_evaluator;
              cost := Some VEC_EVAL_CACHE_COST;
              normal_cost := None;
              shortv_cost := None |} /\
  forall X : @Xpr Z,
    new_continuous_linear asserting (dense_strided_type 2 2) X = None.
Proof.
  destruct (strided_dense_linear_goes_through_cache (T := Z) marker asserting
              (dense_strided_type 2 2)) as (Hmap & _ & Hctor).
  - reflexivity.
  - reflexivity.
  - reflexivity.
  - split; [exact Hmap|]. apply Hctor. reflexivity.
Defined.

(** C6, the claim as written fails.  Linear organization is requested
    for a dense 2 x 2 view whose columns are three cells apart: the map
    has a specialization, with the cached linear evaluator, and
    [evaluate] builds and runs, leaving the four elements of the source
    in the destination, after one materialization. *)

Lemma linear_request_for_strided_dense_builds :
  is_dense_mat (dense_strided_type 2 2) = true /\
  ct_has_continuous_layout (dense_strided_type 2 2) = false /\
  vector_eval (dense_strided_type 2 2) as_linear_vec by_scalars <> None /\
  member cost (vector_eval (dense_strided_type 2 2) as_linear_vec by_scalars)
    = Some 1000 /\
  exists m',
    evaluate marker asserting (dense_strided_type 2 2) square_ct
      (XDense (strided_at 10)) (square_at 0) linear_policy start = Some m' /\
    cells m' 0 4 = [11; 12; 14; 15] /\
    log m' = [EvMaterialize; EvWrite 0; EvWrite 1; EvWrite 2; EvWrite 3].
Proof.
  split; [reflexivity|]. split; [reflexivity|].
  split; [discriminate|]. split; [reflexivity|].
  eexists. split; [reflexivity|]. split; reflexivity.
Qed.



Lemma evaluate_twice_same_contents_witness :
  exists m2,
    evaluate marker asserting (dense_strided_type 2 2) square_ct
      (XDense (strided_at 10)) (strided_at 0) percol_policy
      (after (evaluate marker asserting (dense_strided_type 2 2) square_ct
                (XDense (strided_at 10)) (strided_at 0) percol_policy start))
      = Some m2 /\
    forall a,
      load (mem m2) a
      = load (mem (after (evaluate marker asserting (dense_strided_type 2 2)
                            square_ct (XDense (strided_at 10)) (strided_at 0)
                            percol_policy start))) a.
Proof.
  apply (evaluate_twice_same_contents marker asserting
           (dense_strided_type 2 2) square_ct (XDense (strided_at 10))
           (strided_at 0) percol_policy start).
  - cbn. repeat split. discriminate.
  - cbn. repeat split; right; reflexivity.
  - unfold dense_wf. cbn. lia.
  - intros h h' Hag i j Hi Hj. cbn in Hi, Hj.
    unfold xpr_elem, dense_elem, load. apply Hag.
    unfold footprint, in_columns, percol_policy, strided_at.
    cbn [policy_org ptr_data lead_dim nrows ncolumns column_length
         binary_ct_rows square_ct].
    intros (i' & j' & Hi' & Hj' & Heq). cbn in Hi'. lia.
  - reflexivity.
Defined.

(** C9, the claim as written fails.  [A = A + 1], for the column [A]
    of two cells at address 0 holding [1; 2], is a call that builds and
    gives [2; 3]; the same call again gives [3; 4].  And a column of
    three cells read at address 1 and written at address 0 gives
    [2; 3; 4], then [3; 4; 4]. *)

Lemma evaluate_twice_differs_when_source_reads_destination :
  has_type (computed_type 2 1) plus_one /\
  shapes_match marker column2_ct plus_one (column2_at 0) /\
  dense_wf (column2_at 0) /\
  (exists m1 m2,
     evaluate marker asserting (computed_type 2 1) column2_ct plus_one
       (column2_at 0) linear_policy start = Some m1 /\
     evaluate marker asserting (computed_type 2 1) column2_ct plus_one
       (column2_at 0) linear_policy m1 = Some m2 /\
     cells start 0 2 = [1; 2] /\
     cells m1 0 2 = [2; 3] /\
     cells m2 0 2 = [3; 4] /\
     load (mem m2) 0 <> load (mem m1) 0) /\
  (exists m1 m2,
     evaluate marker asserting (computed_type 2 1) column2_ct plus_one
       (column2_at 0) percol_policy start = Some m1 /\
     evaluate marker asserting (computed_type 2 1) column2_ct plus_one
       (column2_at 0) percol_policy m1 = Some m2 /\
     cells m1 0 2 = [2; 3] /\
     cells m2 0 2 = [3; 4]) /\
  (exists m1 m2,
     evaluate marker asserting (dense_contiguous_type 3 1) column3_ct
       (XDense (column3_at 1)) (column3_at 0) linear_policy start = Some m1 /\
     evaluate marker asserting (dense_contiguous_type 3 1) column3_ct
       (XDense (column3_at 1)) (column3_at 0) linear_policy m1 = Some m2 /\
     cells m1 0 3 = [2; 3; 4] /\
     cells m2 0 3 = [3; 4; 4]).
Proof.
  split; [cbn; repeat split|].
  split; [cbn; repeat split; right; reflexivity|].
  split; [unfold dense_wf; cbn; lia|].
  split; [|split]; do 2 eexists;
    (split; [reflexivity|]); (split; [reflexivity|]).
  - split; [reflexivity|]. split; [reflexivity|]. split; [reflexivity|].
    vm_compute. discriminate.
  - split; reflexivity.
  - split; reflexivity.
Qed.

Lemma percol_evaluators_follow_columns_witness :
  percol_get_value (Nat.iter 1 (next_column (T := Z)) (mk_dense_percol 3 10))
    ramp 1
    = dense_elem (strided_at 10) ramp 1 1.
Proof.
  apply (proj1 (percol_evaluators_follow_columns (T := Z))
           (strided_at 10) (mk_dense_percol 3 10) 1%nat ramp 1).
  reflexivity.
Defined.

(** * Further properties of the evaluation engine *)

Section Engine.

Context {T : Type}.
Variable DynamicDim : Z.
Variable LMAT_USE_STATIC_ASSERT : bool.

Local Abbreviation heap := (@heap T).
Local Abbreviation machine := (@machine T).
Local Abbreviation Xpr := (@Xpr T).
Local Abbreviation XDense := (@XDense T).
Local Abbreviation has_type := (@has_type T).
Local Abbreviation next_column := (@next_column T _ _).
Local Abbreviation percol_get_value := (@percol_get_value T _ _).
Local Abbreviation get_value := (@get_value T _ _).
Local Abbreviation static_assert := (static_assert LMAT_USE_STATIC_ASSERT).
Local Abbreviation static_size_ok := (static_size_ok DynamicDim LMAT_USE_STATIC_ASSERT).
Local Abbreviation new_continuous_linear :=
  (@new_continuous_linear T LMAT_USE_STATIC_ASSERT).
Local Abbreviation linear_eval_impl :=
  (linear_eval_impl DynamicDim LMAT_USE_STATIC_ASSERT).
Local Abbreviation percol_eval_impl :=
  (percol_eval_impl DynamicDim LMAT_USE_STATIC_ASSERT).
Local Abbreviation evaluate := (@evaluate T DynamicDim LMAT_USE_STATIC_ASSERT).
Local Abbreviation traversal_length := (traversal_length DynamicDim).
Local Abbreviation column_length := (column_length DynamicDim).
Local Abbreviation footprint := (footprint DynamicDim).
Local Abbreviation shapes_match := (@shapes_match T DynamicDim).
Local Abbreviation engine_trace := (engine_trace DynamicDim).

(** *** When a call builds *)

Lemma linear_eval_impl_builds_iff {Eva : Type}
  `{LV : @ILinearVectorEvaluator T Eva}
  (CTSize : Z) (mn : Means) (evaluator : Eva) (dst : dense_mat) (m : machine) :
  linear_eval_impl CTSize mn evaluator dst m <> None
  <-> mn = by_scalars /\ static_size_ok CTSize.
Proof.
  split.
  - destruct (linear_eval_impl CTSize mn evaluator dst m) as [m'|] eqn:H;
      [|congruence].
    intros _. exact (linear_eval_impl_inv _ _ _ _ _ _ _ _ H).
  - intros [-> Hok]. rewrite linear_eval_impl_some by exact Hok. discriminate.
Qed.

Lemma percol_eval_impl_builds_iff {Eva : Type}
  `{PC : @IPerColVectorEvaluator T Eva}
  (CTRows CTCols : Z) (mn : Means) (evaluator : Eva) (dst : dense_mat)
  (m : machine) :
  percol_eval_impl CTRows CTCols mn evaluator dst m <> None
  <-> mn = by_scalars /\ static_size_ok CTRows.
Proof.
  split.
  - destruct (percol_eval_impl CTRows CTCols mn evaluator dst m) as [m'|] eqn:H;
      [|congruence].
    intros _. exact (percol_eval_impl_inv _ _ _ _ _ _ _ _ _ H).
  - intros [-> Hok]. rewrite percol_eval_impl_some by exact Hok. discriminate.
Qed.

(** X1.  For an object of the expression type, [evaluate] builds exactly
    when the means is [by_scalars] and the engine of the organization
    accepts its compile-time size: no constructor refuses the object the
    map hands it, and the static assertion of the continuous linear
    evaluator never fails on a type the map sends to it. *)

Theorem evaluate_builds_iff
  (E : ExprType) (ct : binary_ct) (src : Xpr) (dst : dense_mat)
  (p : vector_eval_policy) (m : machine) :
  has_type E src ->
  (evaluate E ct src dst p m <> None
   <-> policy_means p = by_scalars /\
       static_size_ok (engine_size ct (policy_org p))).
Proof.
  intros Ht. destruct p as [o mn]. cbn [policy_means policy_org].
  destruct mn.
  2:{ rewrite evaluate_by_simd. split; [congruence | intros [H _]; discriminate]. }
  destruct o; cbn [engine_size].
  - rewrite evaluate_linear_unfold.
    destruct src as [X|v r c|f r c]; cbn in Ht.
    + destruct Ht as (-> & -> & _). cbn [andb].
      destruct (ct_has_continuous_layout E) eqn:Hc.
      * unfold lmat.new_continuous_linear, lmat.static_assert.
        rewrite Hc, orb_true_r. apply linear_eval_impl_builds_iff.
      * apply linear_eval_impl_builds_iff.
    + rewrite Ht. cbn -[lmat.linear_eval_impl].
      apply linear_eval_impl_builds_iff.
    + destruct Ht as (-> & ->). cbn [andb].
      apply linear_eval_impl_builds_iff.
  - rewrite evaluate_percol_unfold.
    destruct src as [X|v r c|f r c]; cbn in Ht.
    + destruct Ht as (-> & -> & _). cbn -[lmat.percol_eval_impl].
      apply percol_eval_impl_builds_iff.
    + rewrite Ht. cbn -[lmat.percol_eval_impl].
      apply percol_eval_impl_builds_iff.
    + destruct Ht as (-> & ->).
      apply percol_eval_impl_builds_iff.
Qed.

(** X2.  Every class the map names under an organization implements the
    interface the engine of that organization takes, and no class
    implements both; the pointer evaluators are named for dense types
    only, the continuous one only with continuous layout, and the
    constant ones exactly for the [const_matrix] types. *)

Theorem map_respects_engine_interfaces
  (E : ExprType) (o : Org) (ve : eval_members) :
  vector_eval E o by_scalars = Some ve ->
  (match o with
   | as_linear_vec => is_linear_vector_evaluator (evaluator_type ve) = true
   | per_column => is_percol_vector_evaluator (evaluator_type ve) = true
   end) /\
  is_linear_vector_evaluator (evaluator_type ve)
    = negb (is_percol_vector_evaluator (evaluator_type ve)) /\
  (evaluator_type ve = continuous_linear_evaluator ->
   is_dense_mat E = true /\ ct_has_continuous_layout E = true) /\
  (evaluator_type ve = dense_percol_evaluator -> is_dense_mat E = true) /\
  (is_const_matrix E = true <->
   evaluator_type ve = const_linear_evaluator \/
   evaluator_type ve = const_percol_evaluator).
Proof.
  unfold vector_eval, generic_vector_eval, generic_linear_evaluator_type,
    generic_percol_evaluator_type, linear_can_direct, percol_can_direct, if_c.
  destruct o, (is_const_matrix E), (is_dense_mat E),
    (ct_has_continuous_layout E); cbn; intros [= <-]; cbn;
    repeat split; try discriminate; try reflexivity; auto;
    try (intros [?|?]; discriminate).
Qed.

Lemma map_respects_engine_interfaces_witness :
  is_linear_vector_evaluator continuous_linear_evaluator = true /\
  is_dense_mat (dense_contiguous_type 2 2) = true /\
  ct_has_continuous_layout (dense_contiguous_type 2 2) = true.
Proof.
  destruct (map_respects_engine_interfaces (dense_contiguous_type 2 2)
              as_linear_vec
              (mk_members continuous_linear_evaluator (Some 0) None None)
              eq_refl) as (H1 & _ & H2 & _).
  split; [exact H1 | exact (H2 eq_refl)].
Defined.

(** *** What a call changes *)

Lemma evaluate_linear_shape (E : ExprType) (ct : binary_ct) (src : Xpr)
  (dst : dense_mat) (m m' : machine) :
  evaluate E ct src dst (mk_policy as_linear_vec by_scalars) m = Some m' ->
  exists g,
    m' = fill_prefix g (ptr_data dst)
           (Z.to_nat (traversal_length (binary_ct_size ct) dst))
           (if routed_to_cache E as_linear_vec
            then emit EvMaterialize m else m).
Proof.
  rewrite evaluate_linear_unfold.
  unfold routed_to_cache, vector_eval, generic_vector_eval,
    generic_linear_evaluator_type, linear_can_direct, if_c.
  destruct (is_const_matrix E);
    [|destruct (is_dense_mat E && ct_has_continuous_layout E)]; cbn [is_cached_evaluator evaluator_type].
  - destruct (new_const_linear src) as [ev|]; [|discriminate].
    intros H. destruct (linear_eval_impl_inv _ _ _ _ _ _ _ _ H) as [_ Hok].
    rewrite linear_eval_impl_some in H by exact Hok.
    injection H as <-. eexists. reflexivity.
  - destruct (new_continuous_linear E src) as [ev|]; [|discriminate].
    intros H. destruct (linear_eval_impl_inv _ _ _ _ _ _ _ _ H) as [_ Hok].
    rewrite linear_eval_impl_some in H by exact Hok.
    injection H as <-. eexists. reflexivity.
  - intros H. destruct (linear_eval_impl_inv _ _ _ _ _ _ _ _ H) as [_ Hok].
    rewrite linear_eval_impl_some in H by exact Hok.
    injection H as <-. eexists. reflexivity.
Qed.

Lemma evaluate_percol_shape (E : ExprType) (ct : binary_ct) (src : Xpr)
  (dst : dense_mat) (m m' : machine) :
  evaluate E ct src dst (mk_policy per_column by_scalars) m = Some m' ->
  exists (Eva : Type) (PC : @IPerColVectorEvaluator T Eva) (ev : Eva),
    m' = ps_machine
           (percol_prefix (column_length (binary_ct_rows ct) dst) ev dst
              (Z.to_nat (ncolumns dst))
              (if routed_to_cache E per_column
               then emit EvMaterialize m else m)).
Proof.
  rewrite evaluate_percol_unfold.
  unfold routed_to_cache, vector_eval, generic_vector_eval,
    generic_percol_evaluator_type, percol_can_direct, if_c.
  destruct (is_const_matrix E); [|destruct (is_dense_mat E)];
    cbn [is_cached_evaluator evaluator_type].
  - destruct (new_const_percol src) as [ev|]; [|discriminate].
    intros H. destruct (percol_eval_impl_inv _ _ _ _ _ _ _ _ _ H) as [_ Hok].
    rewrite percol_eval_impl_some in H by exact Hok.
    injection H as <-.
    exists _, const_percol_IPerCol, ev. reflexivity.
  - destruct (new_dense_percol src) as [ev|]; [|discriminate].
    intros H. destruct (percol_eval_impl_inv _ _ _ _ _ _ _ _ _ H) as [_ Hok].
    rewrite percol_eval_impl_some in H by exact Hok.
    injection H as <-.
    exists _, dense_percol_IPerCol, ev. reflexivity.
  - intros H. destruct (percol_eval_impl_inv _ _ _ _ _ _ _ _ _ H) as [_ Hok].
    rewrite percol_eval_impl_some in H by exact Hok.
    injection H as <-.
    exists _, cached_percol_IPerCol, (fst (new_cached_percol src m)).
    reflexivity.
Qed.

(** X3.  Whatever the expression, a call of [evaluate] that builds changes
    no cell outside the destination's footprint: the run of cells from
    the data pointer under linear organization, the rows of each column
    under per-column organization. *)

Theorem evaluate_touches_only_destination
  (E : ExprType) (ct : binary_ct) (src : Xpr) (dst : dense_mat)
  (p : vector_eval_policy) (m m' : machine) :
  evaluate E ct src dst p m = Some m' ->
  forall a, ~ footprint ct dst (policy_org p) a ->
    load (mem m') a = load (mem m) a.
Proof.
  destruct p as [o mn].
  destruct mn; [|rewrite evaluate_by_simd; discriminate].
  cbn [policy_org]. unfold load. destruct o; intros H a Ha.
  - destruct (evaluate_linear_shape _ _ _ _ _ _ H) as [g ->].
    rewrite fill_prefix_frame by (rewrite in_range_to_nat; exact Ha).
    now destruct (routed_to_cache E as_linear_vec).
  - destruct (evaluate_percol_shape _ _ _ _ _ _ H) as (Eva & PC & ev & ->).
    rewrite percol_prefix_frame.
    + now destruct (routed_to_cache E per_column).
    + intros (i & j & Hi & Hj & ->). apply Ha. exists i, j.
      repeat split; lia.
Qed.

(** *** The work of a call *)

Lemma count_writes_app (l l' : list event) :
  count_writes (l ++ l') = (count_writes l + count_writes l')%nat.
Proof. unfold count_writes. now rewrite filter_app, length_app. Qed.

Lemma count_next_columns_app (l l' : list event) :
  count_next_columns (l ++ l')
  = (count_next_columns l + count_next_columns l')%nat.
Proof. unfold count_next_columns. now rewrite filter_app, length_app. Qed.

Lemma counts_writes_only (f : index_t -> addr) (l : list index_t) :
  count_writes (map (fun i => EvWrite (f i)) l) = length l /\
  count_next_columns (map (fun i => EvWrite (f i)) l) = 0%nat.
Proof.
  unfold count_writes, count_next_columns.
  induction l as [|x l [IH1 IH2]]; [split; reflexivity|].
  cbn. rewrite IH1. split; [reflexivity | exact IH2].
Qed.

Lemma counts_linear_trace (pd : addr) (len : index_t) :
  count_writes (linear_trace pd len) = Z.to_nat len /\
  count_next_columns (linear_trace pd len) = 0%nat.
Proof.
  destruct (counts_writes_only (fun i => pd + i) (zrange len)) as [H1 H2].
  split; [|exact H2].
  etransitivity; [exact H1|].
  unfold zrange. now rewrite length_map, length_seq.
Qed.

Lemma counts_columns (F : index_t -> list event) (rows : nat)
  (l : list index_t) :
  (forall j, count_writes (F j) = rows /\ count_next_columns (F j) = 0%nat) ->
  count_writes (concat (map (fun j => F j ++ [EvNextColumn]) l))
    = (length l * rows)%nat /\
  count_next_columns (concat (map (fun j => F j ++ [EvNextColumn]) l))
    = length l.
Proof.
  intros HF. induction l as [|x l [IH1 IH2]]; [split; reflexivity|].
  cbn [map concat length].
  rewrite !count_writes_app, !count_next_columns_app, IH1, IH2.
  destruct (HF x) as [-> ->]. cbn. split; lia.
Qed.

Lemma counts_percol_trace (pd : addr) (ldim rows cols : index_t) :
  count_writes (percol_trace pd ldim rows cols)
    = (Z.to_nat cols * Z.to_nat rows)%nat /\
  count_next_columns (percol_trace pd ldim rows cols) = Z.to_nat cols.
Proof.
  destruct (counts_columns (fun j => linear_trace (pd + j * ldim) rows)
              (Z.to_nat rows) (zrange cols)) as [H1 H2].
  - intros j. apply counts_linear_trace.
  - assert (Hl : length (zrange cols) = Z.to_nat cols)
      by (unfold zrange; now rewrite length_map, length_seq).
    rewrite Hl in H1, H2. split; [exact H1 | exact H2].
Qed.

(** X4.  The log of a call of [evaluate] that builds: one materialization
    exactly when the map sends the type to a cached evaluator, then the
    trace of the engine, which the destination's extents and the
    organization fix.  So the call writes as many cells as the traversal
    has indices (linear) or as the columns have rows (per-column), and
    calls [next_column] once per column: the work does not depend on the
    expression's values. *)

Theorem evaluate_log_and_work
  (E : ExprType) (ct : binary_ct) (src : Xpr) (dst : dense_mat)
  (p : vector_eval_policy) (m m' : machine) :
  evaluate E ct src dst p m = Some m' ->
  log m' = log m ++
           (if routed_to_cache E (policy_org p) then [EvMaterialize] else []) ++
           engine_trace ct dst (policy_org p) /\
  count_writes (log m')
    = (count_writes (log m) +
       match policy_org p with
       | as_linear_vec => Z.to_nat (traversal_length (binary_ct_size ct) dst)
       | per_column =>
           Z.to_nat (ncolumns dst) *
           Z.to_nat (column_length (binary_ct_rows ct) dst)
       end)%nat /\
  count_next_columns (log m')
    = (count_next_columns (log m) +
       match policy_org p with
       | as_linear_vec => 0
       | per_column => Z.to_nat (ncolumns dst)
       end)%nat /\
  materializations (log m')
    = (materializations (log m) +
       if routed_to_cache E (policy_org p) then 1 else 0)%nat.
Proof.
  destruct p as [o mn].
  destruct mn; [|rewrite evaluate_by_simd; discriminate].
  cbn [policy_org]. intros H.
  assert (Hlog : log m' = log m ++
            (if routed_to_cache E o then [EvMaterialize] else []) ++
            engine_trace ct dst o).
  { destruct o.
    - destruct (evaluate_linear_shape _ _ _ _ _ _ H) as [g ->].
      rewrite linear_loop_log. cbn [lmat.engine_trace].
      destruct (routed_to_cache E as_linear_vec); cbn [emit log];
        now rewrite <- ?app_assoc.
    - destruct (evaluate_percol_shape _ _ _ _ _ _ H) as (Eva & PC & ev & ->).
      rewrite percol_loop_log. cbn [lmat.engine_trace].
      destruct (routed_to_cache E per_column); cbn [emit log];
        now rewrite <- ?app_assoc. }
  split; [exact Hlog|]. rewrite Hlog.
  rewrite !count_writes_app, !count_next_columns_app, !materializations_app,
    materializations_engine_trace.
  destruct o; cbn [lmat.engine_trace].
  - destruct (counts_linear_trace (ptr_data dst)
                (traversal_length (binary_ct_size ct) dst)) as [-> ->].
    destruct (routed_to_cache E as_linear_vec); cbn; repeat split; lia.
  - destruct (counts_percol_trace (ptr_data dst) (lead_dim dst)
                (column_length (binary_ct_rows ct) dst) (ncolumns dst))
      as [-> ->].
    destruct (routed_to_cache E per_column); cbn; repeat split; lia.
Qed.

(** *** Sizes that leave nothing to do *)

Lemma percol_prefix_no_rows {Eva : Type} `{PC : @IPerColVectorEvaluator T Eva}
  (rows : index_t) (evaluator : Eva) (dst : dense_mat) (m : machine) (n : nat) :
  rows <= 0 ->
  ps_machine (percol_prefix rows evaluator dst n m)
  = {| mem := mem m; log := log m ++ repeat EvNextColumn n |}.
Proof.
  intros Hr. induction n as [|n IH].
  - cbn. rewrite app_nil_r. now destruct m.
  - rewrite percol_prefix_S. cbn [percol_step ps_machine].
    rewrite percol_column_fill.
    replace (Z.to_nat rows) with 0%nat by lia.
    cbn [fill_prefix for_loop]. rewrite IH. unfold emit. cbn [mem log].
    rewrite <- app_assoc. f_equal. f_equal.
    change [EvNextColumn] with (repeat EvNextColumn 1).
    rewrite <- repeat_app. f_equal. lia.
Qed.

(** X5.  With nothing to traverse, the linear engine leaves the machine as
    it is, unless the size is a static one and static assertions are
    on: then it does not build.  With no row to visit, the per-column
    engine, under the same condition, writes nothing and still calls
    [next_column] once per column; with no column it leaves the machine
    as it is. *)

Theorem engines_on_empty_sizes :
  (forall (Eva : Type) (LV : @ILinearVectorEvaluator T Eva) (evaluator : Eva)
          (CTSize : Z) (dst : dense_mat) (m : machine),
     traversal_length CTSize dst <= 0 ->
     linear_eval_impl CTSize by_scalars evaluator dst m
     = if (CTSize =? DynamicDim) || negb LMAT_USE_STATIC_ASSERT
       then Some m else None) /\
  (forall (Eva : Type) (PC : @IPerColVectorEvaluator T Eva) (evaluator : Eva)
          (CTRows CTCols : Z) (dst : dense_mat) (m : machine),
     column_length CTRows dst <= 0 ->
     percol_eval_impl CTRows CTCols by_scalars evaluator dst m
     = if (CTRows =? DynamicDim) || negb LMAT_USE_STATIC_ASSERT
       then Some {| mem := mem m;
                    log := log m ++
                           repeat EvNextColumn (Z.to_nat (ncolumns dst)) |}
       else None) /\
  (forall (Eva : Type) (PC : @IPerColVectorEvaluator T Eva) (evaluator : Eva)
          (CTRows CTCols : Z) (dst : dense_mat) (m : machine),
     ncolumns dst <= 0 ->
     static_size_ok CTRows ->
     percol_eval_impl CTRows CTCols by_scalars evaluator dst m = Some m).
Proof.
  split; [|split].
  - intros Eva LV evaluator CTSize dst m Hlen.
    unfold lmat.traversal_length in Hlen.
    unfold lmat.linear_eval_impl, lmat.static_assert, linear_loop, for_range.
    destruct (Z.eqb_spec CTSize DynamicDim) as [He|Hne]; cbn [orb].
    + replace (Z.to_nat (nelems dst)) with 0%nat by lia. reflexivity.
    + assert (Hf : (0 <? CTSize) = false) by (apply Z.ltb_ge; lia).
      rewrite Hf, orb_false_r.
      destruct LMAT_USE_STATIC_ASSERT; cbn [negb]; [reflexivity|].
      replace (Z.to_nat CTSize) with 0%nat by lia. reflexivity.
  - intros Eva PC evaluator CTRows CTCols dst m Hlen.
    pose proof (percol_prefix_no_rows (column_length CTRows dst) evaluator
                  dst m (Z.to_nat (ncolumns dst)) Hlen) as Hrun.
    unfold lmat.column_length in Hlen, Hrun.
    unfold lmat.percol_eval_impl, lmat.static_assert.
    destruct (Z.eqb_spec CTRows DynamicDim) as [He|Hne]; cbn [orb].
    + f_equal. exact Hrun.
    + assert (Hf : (0 <? CTRows) = false) by (apply Z.ltb_ge; lia).
      rewrite Hf, orb_false_r.
      destruct LMAT_USE_STATIC_ASSERT; cbn [negb]; [reflexivity|].
      f_equal. exact Hrun.
  - intros Eva PC evaluator CTRows CTCols dst m Hc Hok.
    rewrite percol_eval_impl_some by exact Hok.
    unfold percol_prefix.
    replace (Z.to_nat (ncolumns dst)) with 0%nat by lia. reflexivity.
Qed.

(** *** The two specializations of each engine *)

(** X6.  The specialization for a static size and the one for the dynamic
    marker run the same loop: when the static size is the destination's
    size at run time and the engine accepts it, both leave the same
    machine. *)

Theorem static_and_dynamic_engines_agree :
  (forall (Eva : Type) (LV : @ILinearVectorEvaluator T Eva) (evaluator : Eva)
          (CTSize : Z) (dst : dense_mat) (m : machine),
     static_size_ok CTSize ->
     CTSize = nelems dst ->
     linear_eval_impl CTSize by_scalars evaluator dst m
     = linear_eval_impl DynamicDim by_scalars evaluator dst m) /\
  (forall (Eva : Type) (PC : @IPerColVectorEvaluator T Eva) (evaluator : Eva)
          (CTRows CTCols CTCols' : Z) (dst : dense_mat) (m : machine),
     static_size_ok CTRows ->
     CTRows = nrows dst ->
     percol_eval_impl CTRows CTCols by_scalars evaluator dst m
     = percol_eval_impl DynamicDim CTCols' by_scalars evaluator dst m).
Proof.
  split.
  - intros Eva LV evaluator CTSize dst m Hok Heq.
    rewrite !linear_eval_impl_some by (exact Hok || (left; reflexivity)).
    unfold lmat.traversal_length. rewrite Z.eqb_refl.
    destruct (CTSize =? DynamicDim); now rewrite ?Heq.
  - intros Eva PC evaluator CTRows CTCols CTCols' dst m Hok Heq.
    rewrite !percol_eval_impl_some by (exact Hok || (left; reflexivity)).
    unfold lmat.column_length. rewrite Z.eqb_refl.
    destruct (CTRows =? DynamicDim); now rewrite ?Heq.
Qed.

(** *** A dense matrix evaluated into itself *)

Lemma fill_prefix_self (g : heap -> index_t -> T) (pd : addr) (m : machine) :
  (forall h i, g h i = load h (pd + i)) ->
  forall (n : nat) (a : addr), mem (fill_prefix g pd n m) a = mem m a.
Proof.
  intros Hg. induction n as [|n IH]; intros a; [reflexivity|].
  rewrite fill_prefix_S. cbn [write mem]. unfold store.
  destruct (Z.eqb_spec a (pd + Z.of_nat n)) as [->|Hne]; [|apply IH].
  rewrite Hg. unfold load. apply IH.
Qed.

Lemma percol_prefix_self (rows : index_t) (dst : dense_mat) (m : machine) :
  forall (n : nat) (a : addr),
    mem (ps_machine
           (percol_prefix rows
              {| dp_m_ldim := lead_dim dst; dp_m_data := ptr_data dst |}
              dst n m)) a
    = mem m a.
Proof.
  induction n as [|n IH]; intros a; [reflexivity|].
  rewrite percol_prefix_S. cbn [percol_step ps_machine emit mem].
  rewrite percol_column_fill, fill_prefix_self; [apply IH|].
  intros h i. rewrite percol_prefix_evaluator, percol_prefix_pd,
    dense_percol_iter. reflexivity.
Qed.

(** X7.  Evaluating a dense matrix into itself through a pointer evaluator
    (per-column organization, or linear organization for a type with
    continuous layout) leaves every cell of the memory as it was. *)

Theorem self_assignment_changes_nothing
  (E : ExprType) (ct : binary_ct) (dst : dense_mat) (p : vector_eval_policy)
  (m m' : machine) :
  is_const_matrix E = false ->
  is_dense_mat E = true ->
  policy_org p = per_column \/ ct_has_continuous_layout E = true ->
  evaluate E ct (XDense dst) dst p m = Some m' ->
  forall a, load (mem m') a = load (mem m) a.
Proof.
  intros Hk Hd Hor. destruct p as [o mn].
  destruct mn; [|rewrite evaluate_by_simd; discriminate].
  cbn [policy_org] in Hor. unfold load. destruct o.
  - destruct Hor as [Hor|Hc]; [discriminate|].
    rewrite evaluate_linear_unfold, Hk, Hd, Hc. cbn -[lmat.linear_eval_impl].
    destruct (static_assert (ct_has_continuous_layout E)); [|discriminate].
    intros H a. destruct (linear_eval_impl_inv _ _ _ _ _ _ _ _ H) as [_ Hok].
    rewrite linear_eval_impl_some in H by exact Hok. injection H as <-.
    apply fill_prefix_self. reflexivity.
  - rewrite evaluate_percol_unfold, Hk, Hd. cbn -[lmat.percol_eval_impl].
    intros H a. destruct (percol_eval_impl_inv _ _ _ _ _ _ _ _ _ H) as [_ Hok].
    rewrite percol_eval_impl_some in H by exact Hok. injection H as <-.
    apply percol_prefix_self.
Qed.

(** *** The two organizations *)

Lemma footprints_coincide (ct : binary_ct) (src : Xpr) (dst : dense_mat)
  (a : addr) :
  shapes_match ct src dst -> dense_wf dst -> valid_org as_linear_vec dst ->
  (footprint ct dst as_linear_vec a <-> footprint ct dst per_column a).
Proof.
  intros Hsm Hw Hv. unfold lmat.footprint.
  rewrite (traversal_length_match _ _ _ _ Hsm),
    (column_length_match _ _ _ _ Hsm).
  unfold dense_wf in Hw. split.
  - unfold in_range, nelems. intros Ha.
    destruct Hv as [Hv|Hv].
    + destruct (flat_index_bounds (nrows dst) (ncolumns dst)
                  (a - ptr_data dst)) as [Hi Hj]; [lia | lia |].
      exists ((a - ptr_data dst) mod nrows dst),
             ((a - ptr_data dst) / nrows dst).
      split; [exact Hi|]. split; [exact Hj|].
      rewrite Hv.
      pose proof (Z.div_mod (a - ptr_data dst) (nrows dst) ltac:(lia)). lia.
    + rewrite Hv in Ha. exists (a - ptr_data dst), 0.
      repeat split; lia.
  - intros (i & j & Hi & Hj & ->).
    destruct (valid_linear_cell dst i j Hv Hi Hj) as [-> Hin].
    unfold in_range. lia.
Qed.

(** X8.  For a well-formed destination without stride that has the
    expression's shape, and an expression that does not depend on the
    destination's cells, the two organizations leave the same memory:
    the choice between them changes the log, not the result. *)

Theorem organizations_agree
  (E : ExprType) (ct : binary_ct) (src : Xpr) (dst : dense_mat)
  (m ml mc : machine) :
  has_type E src ->
  shapes_match ct src dst ->
  dense_wf dst ->
  valid_org as_linear_vec dst ->
  expr_independent src (footprint ct dst as_linear_vec) ->
  evaluate E ct src dst (mk_policy as_linear_vec by_scalars) m = Some ml ->
  evaluate E ct src dst (mk_policy per_column by_scalars) m = Some mc ->
  forall a, load (mem ml) a = load (mem mc) a.
Proof.
  intros Ht Hsm Hw Hv Hind Hl Hc a. unfold load.
  assert (Hrefl : forall F, agree_outside F (mem m) (mem m))
    by (intros ? ? ?; reflexivity).
  assert (Hind' : expr_independent src (footprint ct dst per_column)).
  { intros h h' Hag. apply Hind. intros b Hb. apply Hag.
    intros Hb'. apply Hb. eapply footprints_coincide; eassumption. }
  destruct (evaluate_linear_result _ _ _ _ _ _ _ _ _ Ht Hsm (proj1 Hw)
              Hind (Hrefl _) Hl) as [Hfl Hvl].
  destruct (evaluate_percol_result _ _ _ _ _ _ _ _ _ Ht Hsm Hw
              Hind' (Hrefl _) Hc) as [Hfc Hvc].
  pose proof (column_length_match _ _ _ _ Hsm) as Hlen.
  destruct (in_columns_dec (ptr_data dst) (lead_dim dst)
              (column_length (binary_ct_rows ct) dst) (ncolumns dst) a)
    as [Hin|Hout].
  - rewrite Hlen. exact Hw.
  - rewrite Hlen in Hin. destruct Hin as (i & j & Hi & Hj & ->).
    rewrite Hvc by assumption.
    destruct (valid_linear_cell dst i j Hv Hi Hj) as [-> Hin].
    rewrite Hvl by exact Hin.
    rewrite Z.mod_add, Z.div_add by lia.
    now rewrite Z.mod_small, Z.div_small by lia.
  - rewrite Hfc by exact Hout. apply Hfl.
    intros Hin. apply Hout.
    apply (footprints_coincide ct src dst a Hsm Hw Hv). exact Hin.
Qed.

End Engine.

(** *** The cost model *)

(** X9.  Per-column organization is strictly cheaper than linear
    organization exactly for the dense types without continuous layout;
    for every other type linear organization is at most as expensive.
    The short-vector penalty never changes the outcome of the
    comparison, and every cost is one of 0, 200, 1000 and 1200. *)

Theorem percol_cheaper_iff_dense_strided (E : ExprType) :
  (generic_percol_cost E < generic_linear_cost E <->
   is_dense_mat E = true /\ ct_has_continuous_layout E = false) /\
  ((generic_linear_cost E <=? generic_percol_cost E)
   = (generic_linear_cost E <=? generic_percol_normal_cost E)) /\
  (generic_linear_cost E = 0 \/ generic_linear_cost E = 1000) /\
  (generic_percol_cost E = 0 \/ generic_percol_cost E = 200 \/
   generic_percol_cost E = 1000 \/ generic_percol_cost E = 1200).
Proof.
  rewrite generic_percol_cost_eq.
  unfold generic_linear_cost, generic_percol_normal_cost, linear_can_direct,
    percol_can_direct, VEC_EVAL_CACHE_COST, SHORTVEC_PERCOL_COST.
  destruct (is_dense_mat E), (ct_has_continuous_layout E),
    (ct_rows E <? SHORTVEC_LENGTH_THRESHOLD); cbn;
    repeat split; try lia; try tauto; try (intros [? ?]; discriminate);
    intros H; discriminate.
Qed.

(** X10.  The default policy exists exactly for the [const_matrix] types;
    where it exists both costs are zero, the tie goes to linear
    organization and the means is [by_scalars]. *)

Theorem default_policy_only_for_const_matrix (E : ExprType) :
  (is_const_matrix E = true ->
   vector_eval_default_policy E
   = Some {| means := by_scalars; linear_cost := 0; percol_cost := 0;
             choose_linear := true; org := as_linear_vec |}) /\
  (is_const_matrix E = false -> vector_eval_default_policy E = None) /\
  (forall p, vector_eval_default_policy E = Some p ->
     policy_type p = mk_policy as_linear_vec by_scalars).
Proof.
  unfold vector_eval_default_policy, vector_eval, generic_vector_eval.
  destruct (is_const_matrix E); cbn; repeat split; try discriminate;
    try reflexivity.
  intros p [= <-]. reflexivity.
Qed.

Lemma default_policy_only_for_const_matrix_witness :
  vector_eval_default_policy (const_matrix_type 3 5)
  = Some {| means := by_scalars; linear_cost := 0; percol_cost := 0;
            choose_linear := true; org := as_linear_vec |}.
Proof.
  apply (proj1 (default_policy_only_for_const_matrix (const_matrix_type 3 5))).
  reflexivity.
Defined.

(** *** The engine's properties at concrete inputs *)

Lemma evaluate_builds_iff_witness :
  evaluate marker asserting (dense_strided_type 2 2) square_ct
    (XDense (strided_at 10)) (strided_at 0) percol_policy start <> None.
Proof.
  apply (evaluate_builds_iff marker asserting (dense_strided_type 2 2)
           square_ct (XDense (strided_at 10)) (strided_at 0) percol_policy
           start).
  - cbn. repeat split. discriminate.
  - split; [reflexivity|]. right. reflexivity.
Defined.

Lemma evaluate_touches_only_destination_witness :
  load (mem (after (evaluate marker asserting (computed_type 2 2) square_ct
                      doubled (strided_at 0) percol_policy start))) 2
  = load (mem start) 2.
Proof.
  apply (evaluate_touches_only_destination marker asserting
           (computed_type 2 2) square_ct doubled (strided_at 0) percol_policy
           start).
  - reflexivity.
  - unfold footprint, in_columns, percol_policy, strided_at, square_ct.
    cbn [policy_org ptr_data lead_dim nrows ncolumns column_length
         binary_ct_rows].
    intros (i & j & Hi & Hj & Heq). cbn in Hi. lia.
Defined.

Lemma evaluate_log_and_work_witness :
  count_writes
    (log (after (evaluate marker asserting (computed_type 2 2) square_ct
                   doubled (strided_at 0) percol_policy start)))
  = (count_writes (log start) + 2 * 2)%nat.
Proof.
  apply (evaluate_log_and_work marker asserting (computed_type 2 2) square_ct
           doubled (strided_at 0) percol_policy start).
  reflexivity.
Defined.

Lemma engines_on_empty_sizes_witness :
  linear_eval_impl marker asserting marker by_scalars
    (mk_const_linear 7) (mk_dense 0 0 3 0) start
  = Some start.
Proof.
  apply (proj1 (engines_on_empty_sizes marker asserting) _ _
           (mk_const_linear 7) marker (mk_dense 0 0 3 0) start).
  cbn. lia.
Defined.

Lemma static_and_dynamic_engines_agree_witness :
  linear_eval_impl marker asserting 4 by_scalars
    (mk_continuous_linear 10) (square_at 0) start
  = linear_eval_impl marker asserting marker by_scalars
      (mk_continuous_linear 10) (square_at 0) start.
Proof.
  apply (proj1 (static_and_dynamic_engines_agree marker asserting) _ _
           (mk_continuous_linear 10) 4 (square_at 0) start).
  - right. reflexivity.
  - reflexivity.
Defined.

Lemma self_assignment_changes_nothing_witness :
  load (mem (after (evaluate marker asserting (dense_strided_type 2 2)
                      square_ct (XDense (strided_at 0)) (strided_at 0)
                      percol_policy start))) 1
  = load (mem start) 1.
Proof.
  apply (fun Hk Hd Ho He =>
           self_assignment_changes_nothing marker asserting
             (dense_strided_type 2 2) square_ct (strided_at 0) percol_policy
             start _ Hk Hd Ho He 1).
  - reflexivity.
  - reflexivity.
  - left. reflexivity.
  - reflexivity.
Defined.

Lemma organizations_agree_witness :
  load (mem (after (evaluate marker asserting (dense_strided_type 2 2)
                      square_ct (XDense (strided_at 10)) (square_at 0)
                      linear_policy start))) 1
  = load (mem (after (evaluate marker asserting (dense_strided_type 2 2)
                        square_ct (XDense (strided_at 10)) (square_at 0)
                        percol_policy start))) 1.
Proof.
  apply (fun Ht Hs Hw Hv Hi Hl Hc =>
           organizations_agree marker asserting (dense_strided_type 2 2)
             square_ct (XDense (strided_at 10)) (square_at 0) start _ _
             Ht Hs Hw Hv Hi Hl Hc 1).
  - cbn. repeat split. discriminate.
  - cbn. repeat split; right; reflexivity.
  - unfold dense_wf. cbn. lia.
  - left. reflexivity.
  - intros h h' Hag i j Hi Hj. cbn in Hi, Hj.
    unfold xpr_elem, dense_elem, load. apply Hag.
    unfold footprint, in_range.
    change (traversal_length marker (binary_ct_size square_ct) (square_at 0))
      with 4.
    unfold strided_at, square_at. cbn [ptr_data lead_dim]. lia.
  - reflexivity.
  - reflexivity.
Defined.

Lemma percol_cheaper_iff_dense_strided_witness :
  generic_percol_cost (dense_strided_type 2 2)
  < generic_linear_cost (dense_strided_type 2 2).
Proof.
  apply (proj1 (percol_cheaper_iff_dense_strided (dense_strided_type 2 2))).
  split; reflexivity.
Defined.

(** * Random bits to reals *)

Import random.internal.

(** ** Bit patterns with a fixed exponent field *)

Lemma low_bits_disjoint (u e mb : Z) :
  0 <= mb -> Z.land (u mod 2 ^ mb) (e * 2 ^ mb) = 0.
Proof.
  intros Hmb. apply Z.bits_inj'. intros n Hn.
  rewrite Z.land_spec, Z.bits_0.
  destruct (Z_lt_dec n mb).
  - rewrite Z.mul_pow2_bits_low by lia. apply andb_false_r.
  - rewrite Z.mod_pow2_bits_high by lia. reflexivity.
Qed.

Lemma masked_or_is_sum (u e mb : Z) :
  0 <= mb ->
  Z.lor (Z.land u (Z.ones mb)) (Z.shiftl e mb) = u mod 2 ^ mb + e * 2 ^ mb.
Proof.
  intros Hmb. rewrite Z.land_ones, Z.shiftl_mul_pow2 by lia.
  rewrite <- Z.lxor_lor, <- Z.add_nocarry_lxor
    by (apply low_bits_disjoint; lia).
  reflexivity.
Qed.

Lemma fields_of_sum (f : float_format) (m e : Z) :
  0 <= fraction_bits f -> 0 <= exponent_bits f ->
  0 <= m < 2 ^ fraction_bits f -> 0 <= e < 2 ^ exponent_bits f ->
  fraction_of f (m + e * 2 ^ fraction_bits f) = m /\
  exponent_of f (m + e * 2 ^ fraction_bits f) = e /\
  sign_of f (m + e * 2 ^ fraction_bits f) = false.
Proof.
  intros Hmb Heb Hm He.
  assert (Hp : 0 < 2 ^ fraction_bits f) by (apply Z.pow_pos_nonneg; lia).
  unfold fraction_of, exponent_of, sign_of. split; [|split].
  - rewrite Z.land_ones, Z.mod_add, Z.mod_small; lia.
  - rewrite Z.land_ones, Z.shiftr_div_pow2, Z.div_add, Z.div_small,
      Z.mod_small; lia.
  - apply Z.testbit_false; [lia|].
    rewrite Z.div_small; [reflexivity|].
    rewrite Z.pow_add_r by lia. nia.
Qed.

(** ** The scalar routines *)

Lemma randbits_f32_sum (u : Z) :
  randbits_to_c1o2_f32 u = u mod 2 ^ 23 + 127 * 2 ^ 23.
Proof. exact (masked_or_is_sum u 127 23 ltac:(lia)). Qed.

Lemma randbits_f64_sum (u : Z) :
  randbits_to_c1o2_f64 u = u mod 2 ^ 52 + 1023 * 2 ^ 52.
Proof. exact (masked_or_is_sum u 1023 52 ltac:(lia)). Qed.

(** X11.  [randbits_to_c1o2_f32] returns, for every [u], a binary32 pattern
    with sign 0, the exponent field of the bias and the low 23 bits of
    [u] as fraction: the number [1 + (u mod 2^23) / 2^23], in [1, 2). *)

Theorem randbits_f32_in_one_two (u : Z) :
  let x := randbits_to_c1o2_f32 u in
  0x3f800000 <= x < 0x40000000 /\
  sign_of binary32 x = false /\
  exponent_of binary32 x = exponent_bias binary32 /\
  fraction_of binary32 x = u mod 2 ^ 23 /\
  exists q,
    real_of binary32 x = Some q /\
    (q == 1 + inject_Z (u mod 2 ^ 23) / inject_Z (2 ^ 23))%Q /\
    (1 <= q)%Q /\ (q < 2)%Q.
Proof.
  cbv zeta. rewrite randbits_f32_sum.
  pose proof (Z.mod_pos_bound u (2 ^ 23) ltac:(lia)) as Hm.
  destruct (fields_of_sum binary32 (u mod 2 ^ 23) 127
              ltac:(cbn; lia) ltac:(cbn; lia) Hm ltac:(cbn; lia))
    as (Hf & He & Hs).
  change (2 ^ fraction_bits binary32) with (2 ^ 23) in *.
  split; [lia|]. split; [exact Hs|]. split; [exact He|]. split; [exact Hf|].
  unfold real_of. rewrite He, Hs, Hf.
  change (2 ^ fraction_bits binary32) with 8388608.
  change (2 ^ 23) with 8388608 in *.
  cbn -[Z.modulo Qplus Qmult Qdiv inject_Z].
  eexists. split; [reflexivity|].
  clear Hf He Hs. set (r := u mod 8388608) in *.
  unfold Qeq, Qle, Qlt. cbn -[Z.mul Z.add Pos.mul]. lia.
Qed.

(** X12.  [randbits_to_c1o2_f64] returns, for every [u], a binary64 pattern
    with sign 0, the exponent field of the bias and the low 52 bits of
    [u] as fraction: the number [1 + (u mod 2^52) / 2^52], in [1, 2). *)

Theorem randbits_f64_in_one_two (u : Z) :
  let x := randbits_to_c1o2_f64 u in
  0x3ff0000000000000 <= x < 0x4000000000000000 /\
  sign_of binary64 x = false /\
  exponent_of binary64 x = exponent_bias binary64 /\
  fraction_of binary64 x = u mod 2 ^ 52 /\
  exists q,
    real_of binary64 x = Some q /\
    (q == 1 + inject_Z (u mod 2 ^ 52) / inject_Z (2 ^ 52))%Q /\
    (1 <= q)%Q /\ (q < 2)%Q.
Proof.
  cbv zeta. rewrite randbits_f64_sum.
  pose proof (Z.mod_pos_bound u (2 ^ 52) ltac:(lia)) as Hm.
  destruct (fields_of_sum binary64 (u mod 2 ^ 52) 1023
              ltac:(cbn; lia) ltac:(cbn; lia) Hm ltac:(cbn; lia))
    as (Hf & He & Hs).
  change (2 ^ fraction_bits binary64) with (2 ^ 52) in *.
  split; [lia|]. split; [exact Hs|]. split; [exact He|]. split; [exact Hf|].
  unfold real_of. rewrite He, Hs, Hf.
  change (2 ^ fraction_bits binary64) with 4503599627370496.
  change (2 ^ 52) with 4503599627370496 in *.
  cbn -[Z.modulo Qplus Qmult Qdiv inject_Z].
  eexists. split; [reflexivity|].
  clear Hf He Hs. set (r := u mod 4503599627370496) in *.
  unfold Qeq, Qle, Qlt. cbn -[Z.mul Z.add Pos.mul]. lia.
Qed.

(** X13.  Two inputs give the same pattern exactly when their low fraction
    bits agree, and the patterns are ordered as those bits are; every
    pattern of the binade [1, 2) is returned for itself, so the routine
    is idempotent and reaches each number of the binade from exactly
    one value of the low bits. *)

Theorem randbits_keep_exactly_low_bits :
  (forall u v, randbits_to_c1o2_f32 u = randbits_to_c1o2_f32 v
               <-> u mod 2 ^ 23 = v mod 2 ^ 23) /\
  (forall u v, randbits_to_c1o2_f32 u <= randbits_to_c1o2_f32 v
               <-> u mod 2 ^ 23 <= v mod 2 ^ 23) /\
  (forall x, 0x3f800000 <= x < 0x40000000 -> randbits_to_c1o2_f32 x = x) /\
  (forall u, randbits_to_c1o2_f32 (randbits_to_c1o2_f32 u)
             = randbits_to_c1o2_f32 u) /\
  (forall u v, randbits_to_c1o2_f64 u = randbits_to_c1o2_f64 v
               <-> u mod 2 ^ 52 = v mod 2 ^ 52) /\
  (forall u v, randbits_to_c1o2_f64 u <= randbits_to_c1o2_f64 v
               <-> u mod 2 ^ 52 <= v mod 2 ^ 52) /\
  (forall x, 0x3ff0000000000000 <= x < 0x4000000000000000 ->
             randbits_to_c1o2_f64 x = x) /\
  (forall u, randbits_to_c1o2_f64 (randbits_to_c1o2_f64 u)
             = randbits_to_c1o2_f64 u).
Proof.
  assert (F32 : forall x, 0x3f800000 <= x < 0x40000000 ->
                          randbits_to_c1o2_f32 x = x).
  { intros x Hx. rewrite randbits_f32_sum.
    replace x with (x - 127 * 2 ^ 23 + 127 * 2 ^ 23) at 1 by lia.
    rewrite Z.mod_add, Z.mod_small; lia. }
  assert (F64 : forall x, 0x3ff0000000000000 <= x < 0x4000000000000000 ->
                          randbits_to_c1o2_f64 x = x).
  { intros x Hx. rewrite randbits_f64_sum.
    replace x with (x - 1023 * 2 ^ 52 + 1023 * 2 ^ 52) at 1 by lia.
    rewrite Z.mod_add, Z.mod_small; lia. }
  split; [|split; [|split; [|split; [|split; [|split; [|split]]]]]].
  - intros u v. rewrite !randbits_f32_sum. split; intros; lia.
  - intros u v. rewrite !randbits_f32_sum. split; intros; lia.
  - exact F32.
  - intros u. apply F32. rewrite randbits_f32_sum.
    pose proof (Z.mod_pos_bound u (2 ^ 23) ltac:(lia)). lia.
  - intros u v. rewrite !randbits_f64_sum. split; intros; lia.
  - intros u v. rewrite !randbits_f64_sum. split; intros; lia.
  - exact F64.
  - intros u. apply F64. rewrite randbits_f64_sum.
    pose proof (Z.mod_pos_bound u (2 ^ 52) ltac:(lia)). lia.
Qed.

Lemma randbits_keep_exactly_low_bits_witness :
  randbits_to_c1o2_f32 0x3fc00000 = 0x3fc00000.
Proof.
  apply (proj1 (proj2 (proj2 randbits_keep_exactly_low_bits))). lia.
Defined.

(** ** The SIMD routines *)

Lemma lane_lor (w k a b : Z) :
  lane w k (Z.lor a b) = Z.lor (lane w k a) (lane w k b).
Proof. unfold lane. now rewrite Z.shiftr_lor, Z.land_lor_distr_l. Qed.

Lemma lane_andnot (w k a b : Z) :
  0 <= w -> 0 <= k ->
  lane w k (mm_andnot a b) = Z.land (Z.lnot (lane w k a)) (lane w k b).
Proof.
  intros Hw Hk. unfold lane, mm_andnot. apply Z.bits_inj'. intros n Hn.
  assert (0 <= w * k) by nia.
  rewrite !Z.land_spec, !Z.lnot_spec, !Z.land_spec, !Z.shiftr_spec,
    !Z.land_spec, !Z.lnot_spec by lia.
  destruct (Z.testbit a (n + w * k)), (Z.testbit b (n + w * k)),
    (Z.testbit (Z.ones w) n); reflexivity.
Qed.

Lemma lane_set1 (w c : Z) :
  0 < w -> 0 <= c < 2 ^ w ->
  forall (n : nat) (k : Z), 0 <= k < Z.of_nat n -> lane w k (set1 w n c) = c.
Proof.
  intros Hw Hc. induction n as [|n IH]; intros k Hk; [lia|].
  cbn [set1]. rewrite lane_lor. unfold lane at 1 2.
  destruct (Z.eq_dec k 0) as [->|Hne].
  - rewrite Z.mul_0_r, !Z.shiftr_0_r, !Z.land_ones, Z.shiftl_mul_pow2 by lia.
    rewrite Z.mod_mul, Z.lor_0_r, Z.mod_small by lia. reflexivity.
  - assert (Hpow : 2 ^ w <= 2 ^ (w * k)) by (apply Z.pow_le_mono_r; nia).
    rewrite (Z.shiftr_div_pow2 c) by nia.
    rewrite Z.div_small, Z.land_0_l, Z.lor_0_l by lia.
    rewrite Z.shiftr_shiftl_r by lia.
    replace (w * k - w) with (w * (k - 1)) by lia.
    apply (IH (k - 1)). lia.
Qed.

Lemma high_bits_false (x N n : Z) :
  0 <= x < 2 ^ N -> N <= n -> Z.testbit x n = false.
Proof.
  intros Hx Hn. destruct (Z_lt_dec N 0) as [Hneg|Hpos].
  - rewrite Z.pow_neg_r in Hx by lia. lia.
  - rewrite <- (Z.mod_small x (2 ^ N)) by lia.
    apply Z.mod_pow2_bits_high. lia.
Qed.

Lemma below_pow2 (x N : Z) :
  0 <= N -> 0 <= x -> (forall n, N <= n -> Z.testbit x n = false) ->
  x < 2 ^ N.
Proof.
  intros HN Hx Hb.
  assert (Heq : x = x mod 2 ^ N).
  { apply Z.bits_inj'. intros n Hn. destruct (Z_lt_dec n N).
    - now rewrite Z.mod_pow2_bits_low by lia.
    - rewrite Z.mod_pow2_bits_high by lia. apply Hb. lia. }
  rewrite Heq. apply Z.mod_pos_bound. apply Z.pow_pos_nonneg; lia.
Qed.

(** In a lane of [a + mb + 2] bits, clearing the two top bits and
    setting the [a] bits above the fraction is masking the fraction and
    setting those bits. *)

Lemma lane_identity (mb a ul : Z) :
  0 <= mb -> 0 <= a -> 0 <= ul < 2 ^ (mb + a + 2) ->
  Z.lor (Z.shiftl (Z.ones a) mb)
        (Z.land (Z.lnot (Z.shiftl 3 (mb + a))) ul)
  = Z.lor (Z.land ul (Z.ones mb)) (Z.shiftl (Z.ones a) mb).
Proof.
  intros Hmb Ha Hul. apply Z.bits_inj'. intros n Hn.
  rewrite !Z.lor_spec, !Z.land_spec, Z.lnot_spec, !Z.shiftl_spec by lia.
  destruct (Z_lt_dec n mb) as [H1|H1].
  - rewrite (Z.testbit_neg_r (Z.ones a)) by lia.
    rewrite (Z.testbit_neg_r 3) by lia.
    rewrite (Z.ones_spec_low mb n) by lia.
    destruct (Z.testbit ul n); reflexivity.
  - destruct (Z_lt_dec n (mb + a)) as [H2|H2].
    + rewrite (Z.ones_spec_low a (n - mb)) by lia.
      now rewrite orb_true_r.
    + rewrite (Z.ones_spec_high a (n - mb)) by lia.
      rewrite (Z.ones_spec_high mb n) by lia.
      rewrite andb_false_r. cbn [orb].
      destruct (Z.eq_dec n (mb + a)) as [->|H3];
        [now rewrite Z.sub_diag|].
      destruct (Z.eq_dec n (mb + a + 1)) as [->|H4];
        [now replace (mb + a + 1 - (mb + a)) with 1 by lia|].
      rewrite (high_bits_false ul (mb + a + 2) n) by lia.
      apply andb_false_r.
Qed.

Lemma lane_bounds (w k x : Z) : 0 <= w -> 0 <= lane w k x < 2 ^ w.
Proof.
  intros Hw. unfold lane. rewrite Z.land_ones by lia.
  apply Z.mod_pos_bound. apply Z.pow_pos_nonneg; lia.
Qed.

Lemma simd_lane_f32 (n : nat) (u k : Z) :
  0 <= k < Z.of_nat n ->
  lane 32 k (mm_or (set1 32 n f32_one) (mm_andnot (set1 32 n f32_neg_two) u))
  = randbits_to_c1o2_f32 (lane 32 k u).
Proof.
  intros Hk. unfold mm_or.
  rewrite lane_lor, lane_andnot by lia.
  rewrite (lane_set1 32 f32_one ltac:(lia) ltac:(unfold f32_one; lia) n k Hk).
  rewrite (lane_set1 32 f32_neg_two ltac:(lia) ltac:(unfold f32_neg_two; lia) n k Hk).
  exact (lane_identity 23 7 (lane 32 k u) ltac:(lia) ltac:(lia)
           (lane_bounds 32 k u ltac:(lia))).
Qed.

Lemma simd_lane_f64 (n : nat) (u k : Z) :
  0 <= k < Z.of_nat n ->
  lane 64 k (mm_or (set1 64 n f64_one) (mm_andnot (set1 64 n f64_neg_two) u))
  = randbits_to_c1o2_f64 (lane 64 k u).
Proof.
  intros Hk. unfold mm_or.
  rewrite lane_lor, lane_andnot by lia.
  rewrite (lane_set1 64 f64_one ltac:(lia) ltac:(unfold f64_one; lia) n k Hk).
  rewrite (lane_set1 64 f64_neg_two ltac:(lia) ltac:(unfold f64_neg_two; lia) n k Hk).
  exact (lane_identity 52 10 (lane 64 k u) ltac:(lia) ltac:(lia)
           (lane_bounds 64 k u ltac:(lia))).
Qed.

Lemma simd_register_bounds (N c d u : Z) :
  0 <= N -> 0 <= c < 2 ^ N -> 0 <= u < 2 ^ N ->
  0 <= mm_or c (mm_andnot d u) < 2 ^ N.
Proof.
  intros HN Hc Hu. unfold mm_or, mm_andnot.
  assert (Hnn : 0 <= Z.lor c (Z.land (Z.lnot d) u)).
  { apply Z.lor_nonneg. split; [lia|]. apply Z.land_nonneg. right. lia. }
  split; [exact Hnn|]. apply below_pow2; [lia | exact Hnn |].
  intros n Hn. rewrite Z.lor_spec, Z.land_spec.
  rewrite (high_bits_false c N n), (high_bits_false u N n) by lia.
  now rewrite andb_false_r.
Qed.

Lemma set1_bounds (w c : Z) :
  0 < w -> 0 <= c < 2 ^ w ->
  forall n : nat, 0 <= set1 w n c < 2 ^ (w * Z.of_nat n).
Proof.
  intros Hw Hc. induction n as [|n IH].
  - cbn [set1]. rewrite Z.mul_0_r. cbn. lia.
  - cbn [set1].
    assert (Hnn : 0 <= Z.lor c (Z.shiftl (set1 w n c) w)).
    { apply Z.lor_nonneg. split; [lia|]. apply Z.shiftl_nonneg. lia. }
    split; [exact Hnn|]. apply below_pow2; [nia | exact Hnn |].
    intros m Hm. rewrite Z.lor_spec, Z.shiftl_spec by nia.
    rewrite (high_bits_false c w m) by nia.
    rewrite (high_bits_false (set1 w n c) (w * Z.of_nat n) (m - w)) by nia.
    reflexivity.
Qed.

(** The patterns [f32_one], [f32_neg_two], [f64_one] and [f64_neg_two]
    are those of the literals [1.0f], [-2.0f], [1.0] and [-2.0]. *)

Lemma simd_constants_decode :
  (exists q, real_of binary32 f32_one = Some q /\ (q == 1)%Q) /\
  (exists q, real_of binary32 f32_neg_two = Some q /\ (q == -2)%Q) /\
  (exists q, real_of binary64 f64_one = Some q /\ (q == 1)%Q) /\
  (exists q, real_of binary64 f64_neg_two = Some q /\ (q == -2)%Q).
Proof.
  repeat split; eexists; (split; [vm_compute; reflexivity|]);
    unfold Qeq; vm_compute; reflexivity.
Qed.

(** X14.  The SSE overloads of [randbits_to_c1o2_f32] and
    [randbits_to_c1o2_f64] work lane by lane: each of the four 32-bit
    lanes (of the two 64-bit lanes) of the result is the scalar routine
    applied to the same lane of the argument, and a 128-bit argument
    gives a 128-bit result. *)

Theorem sse_routines_act_lanewise (u : Z) :
  (forall k, 0 <= k < 4 ->
     lane 32 k (randbits_to_c1o2_f32_sse u)
     = randbits_to_c1o2_f32 (lane 32 k u)) /\
  (forall k, 0 <= k < 2 ->
     lane 64 k (randbits_to_c1o2_f64_sse u)
     = randbits_to_c1o2_f64 (lane 64 k u)) /\
  (0 <= u < 2 ^ 128 ->
     0 <= randbits_to_c1o2_f32_sse u < 2 ^ 128 /\
     0 <= randbits_to_c1o2_f64_sse u < 2 ^ 128).
Proof.
  split; [|split].
  - intros k Hk. apply (simd_lane_f32 4 u k). cbn; lia.
  - intros k Hk. apply (simd_lane_f64 2 u k). cbn; lia.
  - intros Hu. split.
    + apply simd_register_bounds; [lia | | exact Hu].
      exact (set1_bounds 32 f32_one ltac:(lia) ltac:(unfold f32_one; lia) 4).
    + apply simd_register_bounds; [lia | | exact Hu].
      exact (set1_bounds 64 f64_one ltac:(lia) ltac:(unfold f64_one; lia) 2).
Qed.

(** X15.  The AVX overloads, compiled under [LMAT_HAS_AVX], work lane by lane
    as well: eight 32-bit lanes or four 64-bit lanes, each the scalar
    routine applied to the same lane of the argument, and a 256-bit
    argument gives a 256-bit result. *)

Theorem avx_routines_act_lanewise (u : Z) :
  (forall k, 0 <= k < 8 ->
     lane 32 k (randbits_to_c1o2_f32_avx u)
     = randbits_to_c1o2_f32 (lane 32 k u)) /\
  (forall k, 0 <= k < 4 ->
     lane 64 k (randbits_to_c1o2_f64_avx u)
     = randbits_to_c1o2_f64 (lane 64 k u)) /\
  (0 <= u < 2 ^ 256 ->
     0 <= randbits_to_c1o2_f32_avx u < 2 ^ 256 /\
     0 <= randbits_to_c1o2_f64_avx u < 2 ^ 256).
Proof.
  split; [|split].
  - intros k Hk. apply (simd_lane_f32 8 u k). cbn; lia.
  - intros k Hk. apply (simd_lane_f64 4 u k). cbn; lia.
  - intros Hu. split.
    + apply simd_register_bounds; [lia | | exact Hu].
      exact (set1_bounds 32 f32_one ltac:(lia) ltac:(unfold f32_one; lia) 8).
    + apply simd_register_bounds; [lia | | exact Hu].
      exact (set1_bounds 64 f64_one ltac:(lia) ltac:(unfold f64_one; lia) 4).
Qed.

Lemma sse_routines_act_lanewise_witness :
  lane 32 2 (randbits_to_c1o2_f32_sse (2 ^ 127 + 2 ^ 64 + 5))
  = randbits_to_c1o2_f32 (lane 32 2 (2 ^ 127 + 2 ^ 64 + 5)) /\
  0 <= randbits_to_c1o2_f32_sse (2 ^ 127 + 2 ^ 64 + 5) < 2 ^ 128.
Proof.
  split.
  - apply (proj1 (sse_routines_act_lanewise (2 ^ 127 + 2 ^ 64 + 5)) 2). lia.
  - apply (proj2 (proj2 (sse_routines_act_lanewise (2 ^ 127 + 2 ^ 64 + 5)))).
    lia.
Defined.

Lemma avx_routines_act_lanewise_witness :
  lane 64 3 (randbits_to_c1o2_f64_avx (2 ^ 255 + 2 ^ 192 + 9))
  = randbits_to_c1o2_f64 (lane 64 3 (2 ^ 255 + 2 ^ 192 + 9)) /\
  0 <= randbits_to_c1o2_f64_avx (2 ^ 255 + 2 ^ 192 + 9) < 2 ^ 256.
Proof.
  split.
  - apply (proj1 (proj2 (avx_routines_act_lanewise (2 ^ 255 + 2 ^ 192 + 9))) 3).
    lia.
  - apply (proj2 (proj2 (avx_routines_act_lanewise (2 ^ 255 + 2 ^ 192 + 9)))).
    lia.
Defined.
